(** * Crawler for books.toscrape.com: a shallow embedding of [crawler.py]

    The development follows the layout of the Python module:
    - [PyText]: the [str], [int] and [float] built-ins the crawler calls;
    - [Extract]: [clean_price] and [scrape_book];
    - [Listing]: [get_book_urls];
    - [Worker]: [worker_process];
    - [Orchestrator]: [save_books] and the aggregation loop of [main];
    - [Reading], [Spec], [Tally]: the notions the properties are stated with.

    Text is [string]; a character is read as the Unicode code point of the
    same number, so the texts covered are those of code points 0..255
    (Latin-1).  Python integers are [Z].  A Python [float] obtained from a
    decimal literal is represented by the exact rational the literal denotes,
    in lowest terms; rounding to binary64 is outside the model. *)

From Stdlib Require Import ZArith QArith List String Ascii Bool Lia.
From Stdlib Require Import DecimalString DecimalPos Permutation.
Import ListNotations.

Open Scope string_scope.
Open Scope list_scope.
Open Scope Z_scope.

(* ================================================================== *)
(** * Definitions *)
(* ================================================================== *)

(** ** Exceptions and fallible results *)

Inductive exn : Set :=
| ValueError
| AttributeError
| TypeError
| KeyError
| RequestException
| OSError
| QueueEmptyError.

Inductive result (A : Type) : Type :=
| Ok (a : A)
| Raise (e : exn).

Arguments Ok {A} a.
Arguments Raise {A} e.

Definition bind {A B : Type} (r : result A) (k : A -> result B) : result B :=
  match r with
  | Ok a => k a
  | Raise e => Raise e
  end.

Notation "x <- r ;; k" := (bind r (fun x => k))
  (at level 61, r at next level, right associativity).

(** ** The Python built-ins on text *)

Module PyText.

Definition code (c : ascii) : Z := Z.of_N (N_of_ascii c).

Definition chr (n : Z) : ascii := ascii_of_N (Z.to_N n).

Definition in_range (lo hi : Z) (c : ascii) : bool :=
  (lo <=? code c) && (code c <=? hi).

(** [str.isdigit] on one character: the ASCII digits and the three
    superscript digits of Latin-1 (U+00B2, U+00B3, U+00B9). *)
Definition isdigit (c : ascii) : bool :=
  in_range 48 57 c || (code c =? 178) || (code c =? 179) || (code c =? 185).

(** [str.isspace] on one character, as used by [str.strip()]. *)
Definition isspace (c : ascii) : bool :=
  in_range 9 13 c || in_range 28 32 c || (code c =? 133) || (code c =? 160).

(** [str.lower] on one character: A-Z and the Latin-1 capitals. *)
Definition lower_char (c : ascii) : ascii :=
  if in_range 65 90 c then chr (code c + 32)
  else if in_range 192 222 c && negb (code c =? 215) then chr (code c + 32)
  else c.

Fixpoint lower (s : string) : string :=
  match s with
  | EmptyString => EmptyString
  | String c rest => String (lower_char c) (lower rest)
  end.

Fixpoint lstrip (s : string) : string :=
  match s with
  | EmptyString => EmptyString
  | String c rest => if isspace c then lstrip rest else s
  end.

Fixpoint rstrip (s : string) : string :=
  match s with
  | EmptyString => EmptyString
  | String c rest =>
      match rstrip rest with
      | EmptyString => if isspace c then EmptyString else String c EmptyString
      | kept => String c kept
      end
  end.

(** [s.strip()] *)
Definition strip (s : string) : string := rstrip (lstrip s).

(** [word in s] for two strings: [word] occurs in [s] as a substring. *)
Fixpoint contains (word s : string) : bool :=
  prefix word s ||
  match s with
  | EmptyString => false
  | String _ rest => contains word rest
  end.

(** Truth value of a string: non-empty. *)
Definition truthy (s : string) : bool :=
  match s with
  | EmptyString => false
  | String _ _ => true
  end.

Definition digit_value (c : ascii) : option Z :=
  if in_range 48 57 c then Some (code c - 48) else None.

(** Value of a run of ASCII digits, most significant first, continuing
    from [acc]; [None] when a character is not an ASCII digit. *)
Fixpoint digits_value (s : string) (acc : Z) : option Z :=
  match s with
  | EmptyString => Some acc
  | String c rest =>
      match digit_value c with
      | Some d => digits_value rest (10 * acc + d)
      | None => None
      end
  end.

(** Cut [s] at its first decimal point. *)
Fixpoint split_point (s : string) : string * option string :=
  match s with
  | EmptyString => (EmptyString, None)
  | String c rest =>
      if (c =? ".")%char then (EmptyString, Some rest)
      else let '(whole, frac) := split_point rest in (String c whole, frac)
  end.

Fixpoint pow10 (k : nat) : positive :=
  match k with
  | O => 1%positive
  | S k' => (10 * pow10 k')%positive
  end.

(** [float(s)] for a string [s] over the characters that [clean_price]
    keeps (those with [isdigit], and the decimal point).  Accepted are
    "ddd", "ddd.", ".ddd" and "ddd.ddd" over ASCII digits; everything
    else (no digit at all, a second point, a superscript digit) raises
    [ValueError]. *)
Definition float (s : string) : result Q :=
  match split_point s with
  | (whole, None) =>
      match truthy whole, digits_value whole 0 with
      | true, Some n => Ok (Qred (n # 1))
      | _, _ => Raise ValueError
      end
  | (whole, Some frac) =>
      match truthy whole || truthy frac,
            digits_value whole 0, digits_value frac 0 with
      | true, Some n, Some f =>
          let scale := pow10 (String.length frac) in
          Ok (Qred ((n * Z.pos scale + f) # scale))
      | _, _, _ => Raise ValueError
      end
  end.

(** Digits of an integer literal after the optional sign: ASCII digits,
    with single underscores allowed between two digits.  [prev_digit]
    tells whether the previous character was a digit. *)
Fixpoint int_digits (s : string) (prev_digit : bool) (acc : Z) : option Z :=
  match s with
  | EmptyString => if prev_digit then Some acc else None
  | String c rest =>
      match digit_value c with
      | Some d => int_digits rest true (10 * acc + d)
      | None =>
          if (c =? "_")%char && prev_digit then int_digits rest false acc
          else None
      end
  end.

(** [int(s)] in base 10: surrounding whitespace is skipped, then an
    optional sign, then the digits.  The crawler only passes a string
    that [strip] has already trimmed. *)
Definition int (s : string) : result Z :=
  let body := strip s in
  let parsed :=
    match body with
    | String "-" rest => option_map Z.opp (int_digits rest false 0)
    | String "+" rest => int_digits rest false 0
    | _ => int_digits body false 0
    end in
  match parsed with
  | Some n => Ok n
  | None => Raise ValueError
  end.

End PyText.

(** ** Field extraction: [clean_price] and [scrape_book] *)

Module Extract.

Import PyText.

(** The [for char in price_text] loop of [clean_price], with the
    accumulator [clean] threaded through. *)
Fixpoint clean_loop (price_text clean : string) : string :=
  match price_text with
  | EmptyString => clean
  | String char rest =>
      if isdigit char || (char =? ".")%char
      then clean_loop rest (clean ++ String char EmptyString)%string
      else clean_loop rest clean
  end.

Definition clean_price (price_text : string) : result Q :=
  let clean := clean_loop price_text "" in
  if truthy clean then float clean else Ok 0%Q.

(** A scraped book: the dictionary [scrape_book] returns, field by field. *)
Record Book : Type := {
  url : string;
  title : string;
  category : string;
  rating : Z;
  upc : string;
  price : Q;
  currency : string;
  in_stock : bool;
  reviews : Z
}.

(** A table row as the scan reads it: [row.find('th')] and
    [row.find('td')], each absent or carrying its text. *)
Record row : Type := {
  th : option string;
  td : option string
}.

(** A parsed book page, by the queries [scrape_book] makes on it.
    [star_rating] is [str(rating_elem)], the markup of the element;
    a breadcrumb item is given by its [get_text(strip=True)]. *)
Record document : Type := {
  h1 : option string;
  price_color : option string;
  instock_availability : option string;
  star_rating : option string;
  table : option (list row);
  breadcrumb : option (list string)
}.

Record response : Type := {
  status_code : Z;
  soup : document
}.

(** [requests.get(url, timeout=...)] followed by the parse of the body:
    a response or a raised exception. *)
Definition http : Type := string -> result response.

Definition rating_map : list (string * Z) :=
  [("One", 1); ("Two", 2); ("Three", 3); ("Four", 4); ("Five", 5)].

(** [for word, num in rating_map.items()], leaving at the first [break]. *)
Fixpoint rating_loop (items : list (string * Z)) (elem : string) (rating : Z) : Z :=
  match items with
  | [] => rating
  | (word, num) :: rest =>
      if contains word elem then num else rating_loop rest elem rating
  end.

Definition scrape_rating (rating_elem : option string) : Z :=
  let rating := 0 in
  match rating_elem with
  | Some elem => rating_loop rating_map elem rating
  | None => rating
  end.

(** One iteration of [for row in rows] on the pair [(upc, reviews)]. *)
Definition scan_row (acc : string * Z) (r : row) : result (string * Z) :=
  let '(upc, reviews) := acc in
  match th r, td r with
  | Some label, Some value =>
      if contains "UPC" label then Ok (strip value, reviews)
      else if contains "review" (lower label) then
        match int (strip value) with
        | Ok n => Ok (upc, n)
        | Raise ValueError => Ok (upc, 0)
        | Raise e => Raise e
        end
      else Ok acc
  | _, _ => Ok acc
  end.

Fixpoint scan_rows (rows : list row) (acc : string * Z) : result (string * Z) :=
  match rows with
  | [] => Ok acc
  | r :: rest => acc' <- scan_row acc r ;; scan_rows rest acc'
  end.

Definition scrape_table (tbl : option (list row)) : result (string * Z) :=
  match tbl with
  | Some rows => scan_rows rows ("", 0)
  | None => Ok ("", 0)
  end.

Definition scrape_category (crumbs : option (list string)) : string :=
  match crumbs with
  | Some items =>
      if (3 <=? Z.of_nat (List.length items))
      then nth 2 items "Unknown" else "Unknown"
  | None => "Unknown"
  end.

(** The body of the [try] of [scrape_book] once the response is there. *)
Definition scrape_fields (book_url : string) (r : response) : result (option Book) :=
  if negb (status_code r =? 200) then Ok None
  else
    let page := soup r in
    let title := match h1 page with Some t => t | None => "No title" end in
    price <- match price_color page with
             | Some t => clean_price t
             | None => Ok 0%Q
             end ;;
    let in_stock := match instock_availability page with
                    | Some t => contains "In stock" t
                    | None => false
                    end in
    let rating := scrape_rating (star_rating page) in
    cells <- scrape_table (table page) ;;
    let category := scrape_category (breadcrumb page) in
    Ok (Some {| url := book_url; title := title; category := category;
                rating := rating; upc := fst cells; price := price;
                currency := "GBP"; in_stock := in_stock;
                reviews := snd cells |}).

(** [scrape_book]: any exception of the body becomes [None]. *)
Definition scrape_book (get : http) (book_url : string) : option Book :=
  match r <- get book_url ;; scrape_fields book_url r with
  | Ok found => found
  | Raise _ => None
  end.

End Extract.

(** ** URL collection: [get_book_urls] *)

Module Listing.

(** A product container by the chain [book.find('h3').find('a')['href']]. *)
Record anchor : Type := { get_href : option string }.
Record heading : Type := { find_a : option anchor }.
Record article : Type := { find_h3 : option heading }.

(** Fetch and parse of a listing page: the [product_pod] articles found
    on it, or the exception raised on the way. *)
Definition listing_http : Type := string -> result (list article).

Inductive line : Type :=
| CrawlingPage (page : Z)
| FoundBooks (n : Z)
| ErrorOnPage (page : Z) (e : exn).

Definition book_link (book : article) : result string :=
  match find_h3 book with
  | None => Raise AttributeError
  | Some h =>
      match find_a h with
      | None => Raise TypeError
      | Some lnk =>
          match get_href lnk with
          | None => Raise KeyError
          | Some target => Ok target
          end
      end
  end.

(** [str(page)] inside the f-string. *)
Definition str_of_int (n : Z) : string :=
  DecimalString.NilEmpty.string_of_int (Z.to_int n).

Definition page_url_of (base_url : string) (page : Z) : string :=
  if page =? 1 then base_url
  else (base_url ++ "catalogue/page-" ++ str_of_int page ++ ".html")%string.

(** [for book in books]: the list [book_urls] is extended in place, so
    what was appended before an exception stays appended. *)
Fixpoint books_loop (urljoin : string -> string -> string) (page_url : string)
    (books : list article) (book_urls : list string) : list string * option exn :=
  match books with
  | [] => (book_urls, None)
  | book :: rest =>
      match book_link book with
      | Raise e => (book_urls, Some e)
      | Ok link =>
          let book_url := urljoin page_url link in
          books_loop urljoin page_url rest (book_urls ++ [book_url])
      end
  end.

(** The body of [for page in range(1, total_pages + 1)]. *)
Definition visit_page (get : listing_http) (urljoin : string -> string -> string)
    (base_url : string) (page : Z) (state : list string * list line)
  : list string * list line :=
  let '(book_urls, out) := state in
  let page_url := page_url_of base_url page in
  let out := out ++ [CrawlingPage page] in
  match get page_url with
  | Raise e => (book_urls, out ++ [ErrorOnPage page e])
  | Ok books =>
      let out := out ++ [FoundBooks (Z.of_nat (List.length books))] in
      match books_loop urljoin page_url books book_urls with
      | (book_urls', None) => (book_urls', out)
      | (book_urls', Some e) => (book_urls', out ++ [ErrorOnPage page e])
      end
  end.

Fixpoint pages_loop (get : listing_http) (urljoin : string -> string -> string)
    (base_url : string) (pages : list Z) (state : list string * list line)
  : list string * list line :=
  match pages with
  | [] => state
  | page :: rest =>
      pages_loop get urljoin base_url rest (visit_page get urljoin base_url page state)
  end.

(** [range(lo, hi)] *)
Definition range (lo hi : Z) : list Z :=
  map (fun i => lo + Z.of_nat i) (seq 0 (Z.to_nat (hi - lo))).

Definition get_book_urls_run (get : listing_http) (urljoin : string -> string -> string)
    (base_url : string) (total_pages : Z) : list string * list line :=
  pages_loop get urljoin base_url (range 1 (total_pages + 1)) ([], []).

Definition get_book_urls (get : listing_http) (urljoin : string -> string -> string)
    (base_url : string) (total_pages : Z) : list string :=
  fst (get_book_urls_run get urljoin base_url total_pages).

End Listing.

(** ** Workers: [worker_process] *)

Module Worker.

Import Extract.

(** What one [url_queue.get(timeout=2)] gives: a URL, the stop request
    [None], or [queue.Empty] raised after the timeout. *)
Inductive pop : Type :=
| Item (book_url : string)
| StopRequest
| PopTimeout.

Inductive worker_exit : Type :=
| Stopped      (* [break] on the stop request *)
| Crashed.     (* [break] in [except Exception] *)

(** The [while True] loop over the successive results of
    [url_queue.get]; a queue that stays silent is a timeout.  Returns how
    the worker left, what it has put on [result_queue], and the pops it
    never made. *)
Fixpoint worker_process (get : http) (pops : list pop)
    (result_queue : list (option Book))
  : worker_exit * list (option Book) * list pop :=
  match pops with
  | [] => (Crashed, result_queue, [])
  | PopTimeout :: rest => (Crashed, result_queue, rest)
  | StopRequest :: rest => (Stopped, result_queue, rest)
  | Item book_url :: rest =>
      let result := scrape_book get book_url in
      match result with
      | Some book => worker_process get rest (result_queue ++ [Some book])
      | None => worker_process get rest (result_queue ++ [None])
      end
  end.

End Worker.

(** ** The aggregation loop of [main] and [save_books] *)

Module Orchestrator.

Import Extract.

(** What one [result_queue.get(timeout=30)] gives: a worker's outcome
    (a book, or [None] for a failed scrape), or [queue.Empty] raised. *)
Inductive pull : Type :=
| Outcome (result : option Book)
| PullTimeout.

Inductive line : Type :=
| Processed (done total success failed : Z)
| AutoSaved (n : Z)
| TimeoutWaiting.

(** One call of [save_books]: the list handed over and whether the write
    went through.  [successes_then] is bookkeeping of the model only:
    the value of [crawled_count] when the call was made. *)
Record save_call : Type := {
  saved : list Book;
  successes_then : Z;
  written : bool
}.

(** The state the loop works on: the three variables of [main], the
    calls of [save_books] so far (oldest first), and what was printed. *)
Record CrawlState : Type := {
  all_books : list Book;
  crawled_count : Z;
  failed_count : Z;
  saves : list save_call;
  out : list line
}.

Definition initial : CrawlState :=
  {| all_books := []; crawled_count := 0; failed_count := 0;
     saves := []; out := [] |}.

Definition print (l : line) (st : CrawlState) : CrawlState :=
  {| all_books := all_books st; crawled_count := crawled_count st;
     failed_count := failed_count st; saves := saves st;
     out := out st ++ [l] |}.

(** [save_books(books, filename)]: [disk k] tells whether the write of
    call number [k] succeeds; a failed write raises [OSError]. *)
Definition save_books (disk : nat -> bool) (st : CrawlState) : result unit * CrawlState :=
  let ok := disk (List.length (saves st)) in
  let call := {| saved := all_books st; successes_then := crawled_count st;
                 written := ok |} in
  (if ok then Ok tt else Raise OSError,
   {| all_books := all_books st; crawled_count := crawled_count st;
      failed_count := failed_count st; saves := saves st ++ [call];
      out := out st |}).

(** [if result is not None: ... else: ...] *)
Definition count_outcome (result : option Book) (st : CrawlState) : CrawlState :=
  match result with
  | Some book =>
      {| all_books := all_books st ++ [book];
         crawled_count := crawled_count st + 1;
         failed_count := failed_count st; saves := saves st; out := out st |}
  | None =>
      {| all_books := all_books st; crawled_count := crawled_count st;
         failed_count := failed_count st + 1; saves := saves st; out := out st |}
  end.

Definition report_progress (total_crawl_count : Z) (st : CrawlState) : CrawlState :=
  if (crawled_count st + failed_count st) mod 10 =? 0
  then print (Processed (crawled_count st + failed_count st) total_crawl_count
                        (crawled_count st) (failed_count st)) st
  else st.

Definition auto_save (disk : nat -> bool) (st : CrawlState) : CrawlState * option exn :=
  if (crawled_count st mod 20 =? 0) && (0 <? crawled_count st)
  then
    match save_books disk st with
    | (Ok _, st') => (print (AutoSaved (crawled_count st')) st', None)
    | (Raise e, st') => (st', Some e)
    end
  else (st, None).

(** The [try] block of one iteration: the state it leaves and the
    exception, if any, that took it to [except Exception]. *)
Definition loop_body (disk : nat -> bool) (total_crawl_count : Z) (p : pull)
    (st : CrawlState) : CrawlState * option exn :=
  match p with
  | PullTimeout => (st, Some QueueEmptyError)
  | Outcome result =>
      auto_save disk (report_progress total_crawl_count (count_outcome result st))
  end.

Inductive loop_exit : Type :=
| Completed    (* the [while] condition became false *)
| Broke.       (* [break] in [except Exception] *)

(** [while crawled_count + failed_count < total_crawl_count], over the
    successive results of [result_queue.get]; a queue that stays silent
    is a timeout.  Returns how the loop ended, the state, and the pulls
    never made. *)
Fixpoint aggregate (disk : nat -> bool) (total_crawl_count : Z)
    (pulls : list pull) (st : CrawlState) : loop_exit * CrawlState * list pull :=
  if crawled_count st + failed_count st <? total_crawl_count then
    match pulls with
    | [] => (Broke, print TimeoutWaiting st, [])
    | p :: rest =>
        match loop_body disk total_crawl_count p st with
        | (st', Some _) => (Broke, print TimeoutWaiting st', rest)
        | (st', None) => aggregate disk total_crawl_count rest st'
        end
    end
  else (Completed, st, pulls).

(** [main] from the creation of [all_books] to the final save: the loop,
    then [save_books] outside any [try]. *)
Definition main_crawl (disk : nat -> bool) (book_urls : list string)
    (pulls : list pull) : loop_exit * result unit * CrawlState :=
  let total_crawl_count := Z.of_nat (List.length book_urls) in
  let '(how, st, _) := aggregate disk total_crawl_count pulls initial in
  let '(final, st') := save_books disk st in
  (how, final, st').

End Orchestrator.

(** ** Notions used to state the properties *)

Module Reading.

Import PyText Extract Listing Worker.

(** The characters [clean_price] keeps. *)
Definition kept (c : ascii) : bool := isdigit c || (c =? ".")%char.

Fixpoint keep_only (f : ascii -> bool) (s : string) : string :=
  match s with
  | EmptyString => EmptyString
  | String c rest => if f c then String c (keep_only f rest) else keep_only f rest
  end.

Fixpoint all_chars (f : ascii -> bool) (s : string) : bool :=
  match s with
  | EmptyString => true
  | String c rest => f c && all_chars f rest
  end.

(** The last element of a list satisfying [f], if any. *)
Fixpoint last_such {A : Type} (f : A -> bool) (l : list A) : option A :=
  match l with
  | [] => None
  | x :: rest =>
      match last_such f rest with
      | Some y => Some y
      | None => if f x then Some x else None
      end
  end.

Definition label_of (r : row) : string :=
  match th r with Some label => label | None => "" end.

Definition value_of (r : row) : string :=
  match td r with Some value => value | None => "" end.

Definition has_cells (r : row) : bool :=
  match th r, td r with
  | Some _, Some _ => true
  | _, _ => false
  end.

(** Rows the scan takes for the UPC row: both cells there and "UPC"
    inside the label, as spelled. *)
Definition is_upc_row (r : row) : bool :=
  has_cells r && contains "UPC" (label_of r).

(** Rows the scan takes for the review-count row. *)
Definition is_review_row (r : row) : bool :=
  has_cells r && negb (contains "UPC" (label_of r))
  && contains "review" (lower (label_of r)).

Definition int_or_zero (s : string) : Z :=
  match int s with
  | Ok n => n
  | Raise _ => 0
  end.

Definition quote : string := String (chr 34) EmptyString.

Definition pound : string := String (chr 163) EmptyString.

(** A book page as the site serves it, with the given price text. *)
Definition sample_page (price_text : string) : response :=
  {| status_code := 200;
     soup := {| h1 := Some "A Light in the Attic";
                price_color := Some price_text;
                instock_availability := Some "In stock (22 available)";
                star_rating := Some ("<p class=" ++ quote ++ "star-rating Three"
                                     ++ quote ++ "></p>")%string;
                table := Some [ {| th := Some "UPC"; td := Some "a897fe39b1053632" |};
                                {| th := Some "Number of reviews"; td := Some "0" |} ];
                breadcrumb := Some ["Home"; "Books"; "Poetry"; "A Light in the Attic"] |} |}.

(** The links a listing page gives before the first container whose
    link cannot be read. *)
Fixpoint links_before_failure (books : list article) : list string :=
  match books with
  | [] => []
  | book :: rest =>
      match book_link book with
      | Ok link => link :: links_before_failure rest
      | Raise _ => []
      end
  end.

Definition page_links (get : listing_http) (base_url : string) (page : Z) : list string :=
  match get (page_url_of base_url page) with
  | Ok books => links_before_failure books
  | Raise _ => []
  end.

(** What one listing page adds to [book_urls]. *)
Definition page_contribution (get : listing_http)
    (urljoin : string -> string -> string) (base_url : string) (page : Z)
  : list string :=
  map (urljoin (page_url_of base_url page)) (page_links get base_url page).

(** The exception of the first container whose link cannot be read. *)
Fixpoint first_link_error (books : list article) : option exn :=
  match books with
  | [] => None
  | book :: rest =>
      match book_link book with
      | Ok _ => first_link_error rest
      | Raise e => Some e
      end
  end.

(** The failure of a listing page, if it has one: the exception of the
    fetch, or of the first link that cannot be read. *)
Definition page_error (get : listing_http) (base_url : string) (page : Z) : option exn :=
  match get (page_url_of base_url page) with
  | Ok books => first_link_error books
  | Raise e => Some e
  end.

(** The part of a URL up to and including its last slash. *)
Fixpoint up_to_last_slash (s : string) : string :=
  match s with
  | EmptyString => EmptyString
  | String c rest =>
      match up_to_last_slash rest with
      | EmptyString => if (c =? "/")%char then String c EmptyString else EmptyString
      | kept => String c kept
      end
  end.

(** [urljoin] on the references the catalogue uses: a relative path
    without dot segments, query or fragment replaces the last segment of
    the base.  Only the examples use it; the properties hold for any
    [urljoin]. *)
Definition urljoin_relative (base link : string) : string :=
  (up_to_last_slash base ++ link)%string.

Definition linked (target : string) : article :=
  {| find_h3 := Some {| find_a := Some {| get_href := Some target |} |} |}.

Definition unlinked : article := {| find_h3 := None |}.

(** A site of two listing pages: the first cannot be fetched, the
    second has a container without a link after its first one. *)
Definition broken_site (page_url : string) : result (list article) :=
  if String.eqb page_url "https://books.toscrape.com/"
  then Raise RequestException
  else Ok [linked "a_1/index.html"; unlinked; linked "c_3/index.html"].

(** A site whose third listing page has one book. *)
Definition third_page_site (page_url : string) : result (list article) :=
  if String.eqb page_url "https://books.toscrape.com/catalogue/page-3.html"
  then Ok [linked "a_1/index.html"]
  else Ok [].

End Reading.

(** ** The behaviour the specification words describe, where it is
    compared with the code *)

Module Spec.

Import PyText Extract Worker.

(** Price as the specification words it: strip every character that is
    not a digit or decimal point, parse, and take 0.0 when the stripped
    string is empty or does not parse. *)
Definition clean_numeric_string (price_text : string) : Q :=
  match float (Reading.keep_only Reading.kept price_text) with
  | Ok q => q
  | Raise _ => 0%Q
  end.

(** A label matches "UPC" case-insensitively and exactly. *)
Definition upc_label (label : string) : bool :=
  String.eqb (lower label) "upc".

(** A worker that retries an empty-queue timeout until an item or a
    stop request arrives. *)
Fixpoint worker_retrying (get : http) (pops : list pop)
    (result_queue : list (option Book))
  : worker_exit * list (option Book) * list pop :=
  match pops with
  | [] => (Crashed, result_queue, [])
  | PopTimeout :: rest => worker_retrying get rest result_queue
  | StopRequest :: rest => (Stopped, result_queue, rest)
  | Item book_url :: rest =>
      worker_retrying get rest (result_queue ++ [scrape_book get book_url])
  end.

End Spec.

(** ** Reading a sequence of pulls *)

Module Tally.

Import Extract Orchestrator.

(** The books among the outcomes of [ps], in order. *)
Fixpoint successes (ps : list pull) : list Book :=
  match ps with
  | [] => []
  | Outcome (Some book) :: rest => book :: successes rest
  | _ :: rest => successes rest
  end.

(** The number of failed outcomes in [ps]. *)
Fixpoint failures (ps : list pull) : Z :=
  match ps with
  | [] => 0
  | Outcome None :: rest => 1 + failures rest
  | _ :: rest => failures rest
  end.

Definition is_outcome (p : pull) : Prop :=
  match p with
  | Outcome _ => True
  | PullTimeout => False
  end.

(** The three variables of [main] agree in two states. *)
Definition same_tally (a b : CrawlState) : Prop :=
  all_books a = all_books b /\
  crawled_count a = crawled_count b /\
  failed_count a = failed_count b.

Definition call_consistent (c : save_call) : Prop :=
  Z.of_nat (List.length (saved c)) = successes_then c.

(** The list and the success counter agree, and so did they at every
    call of [save_books]. *)
Definition consistent (st : CrawlState) : Prop :=
  Z.of_nat (List.length (all_books st)) = crawled_count st /\
  Forall call_consistent (saves st).

(** The states the loop passes through at the top of an iteration. *)
Inductive visited (disk : nat -> bool) (total : Z) : CrawlState -> Prop :=
| visited_initial : visited disk total initial
| visited_next st p st' :
    visited disk total st ->
    crawled_count st + failed_count st < total ->
    loop_body disk total p st = (st', None) ->
    visited disk total st'.

(** A checkpoint is due in [st]: the test of the auto-save. *)
Definition checkpoint_due (st : CrawlState) : bool :=
  (crawled_count st mod 20 =? 0) && (0 <? crawled_count st).

Definition sample_book : Book :=
  {| url := "https://books.toscrape.com/catalogue/a-light-in-the-attic_1000/index.html";
     title := "A Light in the Attic"; category := "Poetry"; rating := 3;
     upc := "a897fe39b1053632"; price := (5177 # 100)%Q; currency := "GBP";
     in_stock := true; reviews := 0 |}.

(** The state after nineteen successes out of nineteen. *)
Definition after_nineteen : CrawlState :=
  snd (fst (aggregate (fun _ => false) 19
              (repeat (Outcome (Some sample_book)) 19) initial)).

End Tally.

(** ** Further notions, for the properties beyond the table scan and the
    loop exit *)

Module Observing.

Import PyText Extract Listing Orchestrator.

Definition is_ascii_digit (c : ascii) : bool := in_range 48 57 c.

(** Rows the scan of the product table acts on. *)
Definition relevant_row (r : row) : bool :=
  Reading.is_upc_row r || Reading.is_review_row r.

(** The pages announced by the "Crawling page" lines of a log. *)
Fixpoint pages_announced (log : list Listing.line) : list Z :=
  match log with
  | [] => []
  | CrawlingPage page :: rest => page :: pages_announced rest
  | _ :: rest => pages_announced rest
  end.

(** What the visit of one listing page prints. *)
Definition page_lines (get : listing_http) (base_url : string) (page : Z)
  : list Listing.line :=
  CrawlingPage page ::
  match get (page_url_of base_url page) with
  | Raise e => [ErrorOnPage page e]
  | Ok books =>
      FoundBooks (Z.of_nat (List.length books)) ::
      match Reading.first_link_error books with
      | Some e => [ErrorOnPage page e]
      | None => []
      end
  end.

(** A site that answers as [broken_site] except on one URL that is not
    a listing page. *)
Definition broken_site_apart (page_url : string) : result (list article) :=
  if String.eqb page_url "https://books.toscrape.com/about.html"
  then Ok [Reading.linked "z_9/index.html"]
  else Reading.broken_site page_url.

(** A site on which one book page answers and every other request
    fails. *)
Definition one_book_site (book_url : string) : result response :=
  if String.eqb book_url "https://books.toscrape.com/catalogue/a_1/index.html"
  then Ok (Reading.sample_page (Reading.pound ++ "51.77"))
  else Raise RequestException.

(** The state after twenty successes out of forty, the checkpoint
    written. *)
Definition after_twenty : CrawlState :=
  snd (fst (aggregate (fun _ => true) 20
              (repeat (Outcome (Some Tally.sample_book)) 20) initial)).

(** A call of [save_books] made when a checkpoint was due. *)
Definition due_call (c : save_call) : Prop :=
  successes_then c mod 20 = 0 /\ 0 < successes_then c.

(** What a printed line of the loop says, checked against the total. *)
Definition truthful (total : Z) (l : Orchestrator.line) : Prop :=
  match l with
  | Processed done shown success failed =>
      done = success + failed /\ done mod 10 = 0 /\
      0 < done <= total /\ shown = total
  | AutoSaved n => n mod 20 = 0 /\ 0 < n
  | TimeoutWaiting => True
  end.

(** What holds of the state at the top of every iteration of the loop. *)
Definition loop_invariant (total : Z) (st : CrawlState) : Prop :=
  0 <= crawled_count st /\
  0 <= failed_count st /\
  crawled_count st + failed_count st <= total /\
  Forall (truthful total) (out st) /\
  ~ In TimeoutWaiting (out st) /\
  Forall (fun c => due_call c /\ successes_then c <= crawled_count st) (saves st).

End Observing.

(** ** Page discovery and the whole of [main] *)

Module Discovery.

Import PyText Listing Orchestrator.

(** [s.split()] without arguments: the words of [s], whitespace being
    the separator.  [word] is the word being read. *)
Fixpoint split_from (s word : string) : list string :=
  match s with
  | EmptyString => if truthy word then [word] else []
  | String c rest =>
      if isspace c
      then (if truthy word then word :: split_from rest EmptyString
            else split_from rest EmptyString)
      else split_from rest (word ++ String c EmptyString)%string
  end.

Definition split (s : string) : list string := split_from s EmptyString.

(** [words[-1]]: the last element, absent for the empty list (where
    Python raises [IndexError]). *)
Fixpoint last_item (words : list string) : option string :=
  match words with
  | [] => None
  | w :: rest =>
      match last_item rest with
      | Some l => Some l
      | None => Some w
      end
  end.

(** The front page by the queries [main] makes on it: the pager, and
    in it the current-page item, given by its [get_text(strip=True)]. *)
Record pager : Type := { find_current : option string }.
Record front_page : Type := { find_pager : option pager }.

Definition front_http : Type := string -> result front_page.

(** What takes [main] to its [except] during discovery. *)
Inductive discovery_error : Type :=
| Raised (e : exn)
| IndexError.

Inductive discovery : Type :=
| Pages (total_pages : Z)
| DiscoveryFailed (why : discovery_error).

(** The [try] of step 1 of [main]. *)
Definition discover_total_pages (get : front_http) (base_url : string) : discovery :=
  match get base_url with
  | Raise e => DiscoveryFailed (Raised e)
  | Ok soup =>
      let total_pages := 1 in
      match find_pager soup with
      | None => Pages total_pages
      | Some pg =>
          match find_current pg with
          | None => Pages total_pages
          | Some text =>
              match last_item (split text) with
              | None => DiscoveryFailed IndexError
              | Some word =>
                  match int word with
                  | Ok n => Pages n
                  | Raise e => DiscoveryFailed (Raised e)
                  end
              end
          end
      end
  end.

Definition base_url : string := "https://books.toscrape.com/".

(** [main] without its banner: discovery, collection, then the crawl
    fed by what the result queue delivers.  [None] is the early
    [return] after a failed discovery; otherwise the URLs dispatched
    and the outcome of [main_crawl]. *)
Definition main (front : front_http) (listing : listing_http)
    (urljoin : string -> string -> string) (disk : nat -> bool)
    (pulls : list pull)
  : option (list string * (loop_exit * result unit * CrawlState)) :=
  match discover_total_pages front base_url with
  | DiscoveryFailed _ => None
  | Pages total_pages =>
      let book_urls := get_book_urls listing urljoin base_url total_pages in
      Some (book_urls, main_crawl disk book_urls pulls)
  end.

(** A front page whose pager reads [text]. *)
Definition front_with (text : string) : front_page :=
  {| find_pager := Some {| find_current := Some text |} |}.

End Discovery.

(** ** The worker pool of [main]: workers interleaved on the two queues

    Each worker runs the loop of [worker_process]; the pool is the
    workers taking turns, one step at a time, in any order.  A step is
    what a worker does between two queue operations: the pop from
    [url_queue] with the scrape that follows it, or the put on
    [result_queue].  A pop finds the head of the queue, and times out
    only when the queue is empty: [main] has put every URL and every
    stop request before it starts the workers. *)

Module Pool.

Import Extract Worker.

(** Where a worker stands in the body of its loop. *)
Inductive phase : Type :=
| Idle                                (* about to call [url_queue.get] *)
| Reporting (result : option Book)    (* scraped, about to call [result_queue.put] *)
| Gone (how : worker_exit).           (* out of the loop *)

Record system : Type := {
  url_queue : list (option string);
  result_queue : list (option Book);
  pool : list phase
}.


(** [main] before the loop: every URL is put on [url_queue], then one
    stop request per worker, then the workers are started. *)
Definition start (book_urls : list string) (workers : nat) : system :=
  {| url_queue := map Some book_urls ++ repeat None workers;
     result_queue := [];
     pool := repeat Idle workers |}.

Fixpoint set_phase (workers : list phase) (w : nat) (p : phase) : list phase :=
  match workers, w with
  | [], _ => []
  | _ :: rest, O => p :: rest
  | q :: rest, S w' => q :: set_phase rest w' p
  end.

(** Worker [w] takes its next step in [worker_process]: a pop from
    [url_queue] followed by the scrape, or the put of the outcome.  A
    pop on an empty queue is the timeout.  [None] when there is no such
    worker or it has left its loop. *)
Definition act (get : http) (w : nat) (sys : system) : option system :=
  match nth_error (pool sys) w with
  | Some Idle =>
      match url_queue sys with
      | [] =>
          Some {| url_queue := [];
                  result_queue := result_queue sys;
                  pool := set_phase (pool sys) w (Gone Crashed) |}
      | None :: rest =>
          Some {| url_queue := rest;
                  result_queue := result_queue sys;
                  pool := set_phase (pool sys) w (Gone Stopped) |}
      | Some book_url :: rest =>
          Some {| url_queue := rest;
                  result_queue := result_queue sys;
                  pool := set_phase (pool sys) w
                            (Reporting (scrape_book get book_url)) |}
      end
  | Some (Reporting result) =>
      Some {| url_queue := url_queue sys;
              result_queue := result_queue sys ++ [result];
              pool := set_phase (pool sys) w Idle |}
  | Some (Gone _) => None
  | None => None
  end.

(** The workers stepping in the order [schedule] names them. *)
Fixpoint run (get : http) (schedule : list nat) (sys : system) : option system :=
  match schedule with
  | [] => Some sys
  | w :: rest =>
      match act get w sys with
      | Some sys' => run get rest sys'
      | None => None
      end
  end.

Definition running (p : phase) : bool :=
  match p with
  | Gone _ => false
  | _ => true
  end.

Definition holding (p : phase) : list (option Book) :=
  match p with
  | Reporting result => [result]
  | _ => []
  end.

(** The outcomes scraped and not yet put. *)
Definition held (workers : list phase) : list (option Book) :=
  flat_map holding workers.

Definition count_running (workers : list phase) : nat :=
  List.length (filter running workers).

Definition weight (item : option string) : nat :=
  match item with
  | Some _ => 2%nat
  | None => 1%nat
  end.

(** The steps still to be taken: two for a URL in the queue, one for a
    stop request, one for an outcome not yet put. *)
Definition work_left (sys : system) : nat :=
  (list_sum (map weight (url_queue sys)) + List.length (held (pool sys)))%nat.

Definition finished (sys : system) : bool :=
  forallb (fun p => negb (running p)) (pool sys).

(** The URLs still in the queue, and the number of stop requests. *)
Fixpoint queued (queue : list (option string)) : list string :=
  match queue with
  | [] => []
  | Some book_url :: rest => book_url :: queued rest
  | None :: rest => queued rest
  end.

Fixpoint stops_waiting (queue : list (option string)) : nat :=
  match queue with
  | [] => O
  | Some _ :: rest => stops_waiting rest
  | None :: rest => S (stops_waiting rest)
  end.

(** The queue as the pops a lone worker would make. *)
Definition pops_of (queue : list (option string)) : list pop :=
  map (fun item => match item with
                   | Some book_url => Item book_url
                   | None => StopRequest
                   end) queue.

(** What holds of the pool after any interleaving. *)
Definition protocol_invariant (get : http) (book_urls : list string)
    (workers : nat) (sys : system) : Prop :=
  exists waiting requests,
    url_queue sys = map Some waiting ++ repeat None requests /\
    requests = count_running (pool sys) /\
    (waiting = [] \/ requests = workers) /\
    List.length (pool sys) = workers /\
    Forall (fun p => p <> Gone Crashed) (pool sys) /\
    Permutation (map (scrape_book get) book_urls)
                (result_queue sys ++ held (pool sys)
                 ++ map (scrape_book get) waiting).

End Pool.

(* ================================================================== *)
(** * Properties *)
(* ================================================================== *)


Module TextFacts.

Import PyText Reading.

Lemma prefix_split word : forall s,
  prefix word s = true <-> exists tail, s = (word ++ tail)%string.
Proof.
  induction word as [|c word IH]; intros s; simpl.
  - split; [intros _; now exists s | intros _; now destruct s].
  - destruct s as [|d s]; simpl.
    + split; [discriminate | intros [tail H]; discriminate].
    + destruct (ascii_dec c d) as [->|Hne].
      * rewrite IH. split; intros [tail H]; exists tail; congruence.
      * split; [discriminate | intros [tail H]; congruence].
Qed.

(** [contains] is the substring test of Python's [in]. *)
Lemma contains_split word : forall s,
  contains word s = true <->
  exists head tail, s = (head ++ word ++ tail)%string.
Proof.
  induction s as [|d s IH].
  - cbn [contains]. rewrite orb_false_r, prefix_split.
    split.
    + intros [tail H]. now exists EmptyString, tail.
    + intros ([|c head] & tail & H); [now exists tail | discriminate].
  - cbn [contains]. rewrite orb_true_iff, prefix_split, IH.
    split.
    + intros [[tail H] | (head & tail & H)].
      * now exists EmptyString, tail.
      * exists (String d head), tail. simpl. now rewrite H.
    + intros ([|c head] & tail & H).
      * left. now exists tail.
      * right. exists head, tail. simpl in H. congruence.
Qed.

Lemma int_raises_value_error s e : int s = Raise e -> e = ValueError.
Proof.
  unfold int.
  destruct (match strip s with EmptyString => _ | String _ _ => _ end);
    congruence.
Qed.

Lemma digit_value_bounds c d : digit_value c = Some d -> 0 <= d <= 9.
Proof.
  unfold digit_value, in_range.
  destruct (Z.leb_spec 48 (code c)); destruct (Z.leb_spec (code c) 57);
    simpl; intros [= <-]; lia.
Qed.

Lemma int_digits_nonneg : forall s prev acc n,
  0 <= acc -> int_digits s prev acc = Some n -> 0 <= n.
Proof.
  induction s as [|c s IH]; intros prev acc n Hacc; cbn [int_digits].
  - destruct prev; congruence.
  - destruct (digit_value c) as [d|] eqn:Hd.
    + apply digit_value_bounds in Hd.
      intros H. eapply IH; [|exact H]. lia.
    + destruct (_ && _); [|discriminate].
      intros H. eapply IH; [|exact H]. assumption.
Qed.

Lemma unsigned_literal_nonneg body n :
  match int_digits body false 0 with
  | Some k => Ok k
  | None => Raise ValueError
  end = Ok n ->
  0 <= n.
Proof.
  destruct (int_digits body false 0) as [k|] eqn:Hk; [|discriminate].
  intros [= <-]. eapply int_digits_nonneg; [|exact Hk]. lia.
Qed.

(** A negative result of [int] comes from a leading minus sign. *)
Lemma int_negative_has_sign s n :
  int s = Ok n -> n < 0 -> exists rest, strip s = String "-" rest.
Proof.
  unfold int. intros H Hneg.
  destruct (strip s) as [|c body] eqn:Hs; [discriminate|].
  destruct (ascii_dec c "-") as [->|Hminus]; [now exists body|].
  exfalso.
  destruct (ascii_dec c "+") as [->|Hplus].
  - apply unsigned_literal_nonneg in H. lia.
  - revert H.
    destruct c as [[] [] [] [] [] [] [] []];
      try (exfalso; apply Hminus; reflexivity);
      try (exfalso; apply Hplus; reflexivity);
      intros H; apply unsigned_literal_nonneg in H; lia.
Qed.

Lemma lstrip_head s c rest : lstrip s = String c rest -> isspace c = false.
Proof.
  induction s as [|d s IH]; simpl; [discriminate|].
  destruct (isspace d) eqn:Hd; [exact IH|].
  now intros [= <- _].
Qed.

Lemma rstrip_head c rest :
  isspace c = false -> exists kept, rstrip (String c rest) = String c kept.
Proof.
  intros Hc. simpl. rewrite Hc.
  destruct (rstrip rest); eauto.
Qed.

Lemma rstrip_idempotent s : rstrip (rstrip s) = rstrip s.
Proof.
  induction s as [|c s IH]; [reflexivity|].
  cbn [rstrip].
  destruct (rstrip s) as [|k kept] eqn:Hs.
  - destruct (isspace c) eqn:Hc; [reflexivity|].
    simpl. now rewrite Hc.
  - cbn [rstrip] in *. now rewrite IH.
Qed.

Lemma strip_idempotent s : strip (strip s) = strip s.
Proof.
  unfold strip.
  destruct (lstrip s) as [|c rest] eqn:Hs; [reflexivity|].
  apply lstrip_head in Hs.
  destruct (rstrip_head c rest Hs) as [kept Hk].
  rewrite Hk. cbn [lstrip]. rewrite Hs, <- Hk.
  apply rstrip_idempotent.
Qed.

End TextFacts.

Module ExtractFacts.

Import PyText Extract Reading TextFacts.

Lemma clean_loop_keeps : forall price_text clean,
  clean_loop price_text clean = (clean ++ keep_only kept price_text)%string.
Proof.
  induction price_text as [|c rest IH]; intros clean; simpl.
  - clear. induction clean; simpl; congruence.
  - unfold kept at 1. destruct (isdigit c || (c =? ".")%char).
    + rewrite IH. clear. induction clean; simpl; congruence.
    + apply IH.
Qed.

(** What [clean_price] computes: the parse of the stripped text, and
    0.0 when nothing is left of it. *)
Lemma clean_price_unfolded price_text :
  clean_price price_text
  = match keep_only kept price_text with
    | EmptyString => Ok 0%Q
    | stripped => float stripped
    end.
Proof.
  unfold clean_price. rewrite clean_loop_keeps. simpl.
  now destruct (keep_only kept price_text).
Qed.

Lemma keep_only_none f s :
  all_chars (fun c => negb (f c)) s = true -> keep_only f s = EmptyString.
Proof.
  induction s as [|c s IH]; simpl; [reflexivity|].
  destruct (f c); simpl; [discriminate | exact IH].
Qed.

(** The parts of C4 the code does meet: a price that parses is the parse
    of the stripped text, the price of the site's example is 51.77, and
    a text with neither digit nor point gives 0.0. *)
Lemma clean_price_parsed price_text q :
  float (keep_only kept price_text) = Ok q -> clean_price price_text = Ok q.
Proof.
  rewrite clean_price_unfolded.
  destruct (keep_only kept price_text); [discriminate | trivial].
Qed.

Lemma clean_price_examples :
  clean_price (pound ++ "51.77") = Ok (5177 # 100)%Q /\
  clean_price "" = Ok 0%Q.
Proof. split; reflexivity. Qed.

Lemma clean_price_nothing_kept price_text :
  all_chars (fun c => negb (kept c)) price_text = true ->
  clean_price price_text = Ok 0%Q.
Proof.
  intros H. rewrite clean_price_unfolded.
  now rewrite (keep_only_none _ _ H).
Qed.

(** C4.  Where the claim and the docstring of [clean_price] promise 0.0
    for a price that does not parse, the code raises: a price text with
    two points, or with a point and no digit, stops [float] with
    [ValueError], and in [scrape_book] that loses the whole record,
    although the same page with a price that parses is scraped. *)
Theorem clean_price_unparsable_raises :
  clean_price (pound ++ "1.234.56") = Raise ValueError /\
  Spec.clean_numeric_string (pound ++ "1.234.56") = 0%Q /\
  clean_price "." = Raise ValueError /\
  all_chars (fun c => negb (isdigit c)) "." = true /\
  (forall book_url,
      scrape_book (fun _ => Ok (sample_page (pound ++ "1.234.56"))) book_url = None) /\
  (forall book_url,
      exists book,
        scrape_book (fun _ => Ok (sample_page (pound ++ "51.77"))) book_url = Some book /\
        price book = (5177 # 100)%Q).
Proof.
  repeat split; try reflexivity.
  intros book_url. eexists. split; reflexivity.
Qed.

Lemma scan_row_result u v r :
  scan_row (u, v) r
  = Ok (if is_upc_row r then strip (value_of r) else u,
        if is_review_row r then int_or_zero (strip (value_of r)) else v).
Proof.
  unfold scan_row, is_upc_row, is_review_row, has_cells, label_of, value_of,
    int_or_zero.
  destruct r as [[label|] [value|]]; simpl; try reflexivity.
  destruct (contains "UPC" label); simpl; [reflexivity|].
  destruct (contains "review" (lower label)); [|reflexivity].
  destruct (int (strip value)) as [n|e] eqn:Hint; [reflexivity|].
  apply int_raises_value_error in Hint. now subst e.
Qed.

(** The whole scan never raises; each of the two cells is decided by the
    last row taken for it. *)
Lemma scan_rows_result : forall rows u v,
  scan_rows rows (u, v)
  = Ok (match last_such is_upc_row rows with
        | Some r => strip (value_of r)
        | None => u
        end,
        match last_such is_review_row rows with
        | Some r => int_or_zero (strip (value_of r))
        | None => v
        end).
Proof.
  induction rows as [|r rows IH]; intros u v; [reflexivity|].
  cbn [scan_rows last_such]. rewrite scan_row_result. cbn [bind].
  rewrite IH.
  destruct (last_such is_upc_row rows), (last_such is_review_row rows),
    (is_upc_row r), (is_review_row r); reflexivity.
Qed.

(** C6 (as amended).  The scan takes a row for the UPC row when it has
    both cells and its label contains "UPC" as spelled, in capitals,
    anywhere in the label; upc is the stripped value cell of the last
    such row, and the empty string when there is no such row or no
    table. *)
Theorem upc_is_last_row_containing_UPC :
  forall tbl, exists reviews,
    scrape_table tbl
    = Ok (match tbl with
          | Some rows =>
              match last_such is_upc_row rows with
              | Some r => strip (value_of r)
              | None => ""
              end
          | None => ""
          end, reviews).
Proof.
  intros [rows|]; simpl.
  - rewrite scan_rows_result. eexists. reflexivity.
  - eexists. reflexivity.
Qed.

(** C6 as written fails: a label "upc" matches "UPC" exactly and
    case-insensitively, and the scan leaves upc empty; a label
    "UPC-A code" does not, and the scan takes its value. *)
Lemma upc_label_counterexample :
  Spec.upc_label "upc" = true /\
  scrape_table (Some [ {| th := Some "upc"; td := Some "a897fe39b1053632" |} ])
  = Ok ("", 0) /\
  Spec.upc_label "UPC-A code" = false /\
  scrape_table (Some [ {| th := Some "UPC-A code"; td := Some " 12 " |} ])
  = Ok ("12", 0).
Proof. repeat split; reflexivity. Qed.

(** C7 (as amended).  The scan never raises, and the review count is an
    integer that may be negative: it is what [int] reads from the
    stripped value cell of the last review row, 0 when [int] rejects
    that text, and 0 when there is no such row or no table; it is
    negative only when that text begins with a minus sign. *)
Theorem review_count_is_int_or_zero :
  forall tbl, exists upc reviews,
    scrape_table tbl = Ok (upc, reviews) /\
    reviews = match tbl with
              | Some rows =>
                  match last_such is_review_row rows with
                  | Some r => int_or_zero (strip (value_of r))
                  | None => 0
                  end
              | None => 0
              end /\
    (reviews < 0 ->
     exists rows r rest,
       tbl = Some rows /\
       last_such is_review_row rows = Some r /\
       strip (value_of r) = String "-" rest).
Proof.
  intros [rows|]; simpl.
  - rewrite scan_rows_result. eexists _, _. split; [reflexivity|].
    split; [reflexivity|].
    destruct (last_such is_review_row rows) as [r|] eqn:Hlast; [|lia].
    unfold int_or_zero.
    destruct (int (strip (value_of r))) as [n|e] eqn:Hint; [|lia].
    intros Hneg.
    destruct (int_negative_has_sign _ _ Hint Hneg) as [rest Hrest].
    rewrite strip_idempotent in Hrest.
    now exists rows, r, rest.
  - exists "", 0. repeat split. lia.
Qed.

Lemma review_count_witness :
  exists rest, PyText.strip "-5" = String "-" rest.
Proof.
  destruct (review_count_is_int_or_zero
              (Some [ {| th := Some "Number of reviews"; td := Some "-5" |} ]))
    as (upc & reviews & _ & Hval & Hneg).
  assert (Hlt : reviews < 0) by (rewrite Hval; reflexivity).
  destruct (Hneg Hlt) as (rows & r & rest & Hrows & Hlast & Hstrip).
  injection Hrows as <-.
  injection Hlast as <-.
  exists rest. exact Hstrip.
Defined.

(** C7 as written fails: a review cell reading "-5" gives a negative
    review count. *)
Lemma review_count_counterexample :
  scrape_table (Some [ {| th := Some "Number of reviews"; td := Some "-5" |} ])
  = Ok ("", -5) /\
  -5 < 0.
Proof. split; reflexivity. Qed.

(** C8 (as amended).  The five words are tried in the order One, Two,
    Three, Four, Five and the first one found in the markup of the
    indicator decides: markup containing "Three" and neither "One" nor
    "Two" gives 3; markup containing none of the five words, and an
    absent indicator, give 0; the rating is always between 0 and 5. *)
Theorem rating_is_first_matching_word :
  (forall elem,
      scrape_rating (Some elem)
      = match find (fun item => contains (fst item) elem) rating_map with
        | Some item => snd item
        | None => 0
        end) /\
  (forall elem,
      contains "Three" elem = true ->
      contains "One" elem = false ->
      contains "Two" elem = false ->
      scrape_rating (Some elem) = 3) /\
  (forall elem,
      (forall item, In item rating_map -> contains (fst item) elem = false) ->
      scrape_rating (Some elem) = 0) /\
  scrape_rating None = 0 /\
  (forall rating_elem, 0 <= scrape_rating rating_elem <= 5).
Proof.
  assert (Hfirst : forall elem,
      scrape_rating (Some elem)
      = match find (fun item => contains (fst item) elem) rating_map with
        | Some item => snd item
        | None => 0
        end).
  { intros elem. unfold scrape_rating, rating_map.
    cbn [rating_loop find fst snd].
    repeat match goal with
           | |- context [contains ?w elem] => destruct (contains w elem)
           end; reflexivity. }
  split; [exact Hfirst|].
  split; [|split; [|split]].
  - intros elem H3 H1 H2. rewrite Hfirst. unfold rating_map.
    cbn [find fst snd]. now rewrite H1, H2, H3.
  - intros elem Hnone. rewrite Hfirst.
    destruct (find _ rating_map) as [item|] eqn:Hfind; [|reflexivity].
    apply find_some in Hfind. destruct Hfind as [Hin Hc].
    rewrite (Hnone item Hin) in Hc. discriminate.
  - reflexivity.
  - intros [elem|]; [|simpl; lia].
    rewrite Hfirst. unfold rating_map. cbn [find fst snd].
    repeat match goal with
           | |- context [contains ?w elem] => destruct (contains w elem)
           end; simpl; lia.
Qed.

Lemma rating_witness :
  scrape_rating (Some "<p class='star-rating Three'></p>") = 3.
Proof.
  apply (proj1 (proj2 rating_is_first_matching_word)); reflexivity.
Defined.

(** C8 as written fails: markup that contains "Three" but also "One"
    gets rating 1. *)
Lemma rating_counterexample :
  let elem := ("<p class=" ++ quote ++ "star-rating Three" ++ quote
               ++ "><i>One</i></p>")%string in
  contains "Three" elem = true /\ scrape_rating (Some elem) = 1.
Proof. split; reflexivity. Qed.

End ExtractFacts.

Module ListingFacts.

Import Listing Reading.

Section Collection.

Variable get : listing_http.
Variable urljoin : string -> string -> string.
Variable base_url : string.

Lemma books_loop_result page_url : forall books book_urls,
  books_loop urljoin page_url books book_urls
  = (book_urls ++ map (urljoin page_url) (links_before_failure books),
     first_link_error books).
Proof.
  induction books as [|book books IH]; intros book_urls; simpl.
  - now rewrite app_nil_r.
  - destruct (book_link book) as [link|e].
    + rewrite IH. simpl. now rewrite <- app_assoc.
    + now rewrite app_nil_r.
Qed.

Lemma visit_page_urls page book_urls out :
  fst (visit_page get urljoin base_url page (book_urls, out))
  = book_urls ++ page_contribution get urljoin base_url page.
Proof.
  unfold visit_page, page_contribution, page_links.
  destruct (get (page_url_of base_url page)) as [books|e]; simpl.
  - rewrite books_loop_result.
    now destruct (first_link_error books).
  - now rewrite app_nil_r.
Qed.

Lemma visit_page_error page book_urls out e :
  page_error get base_url page = Some e ->
  exists shown,
    snd (visit_page get urljoin base_url page (book_urls, out))
    = shown ++ [ErrorOnPage page e].
Proof.
  unfold visit_page, page_error.
  destruct (get (page_url_of base_url page)) as [books|e']; simpl.
  - rewrite books_loop_result. intros ->. simpl. eexists. reflexivity.
  - intros [= ->]. eexists. reflexivity.
Qed.

Lemma visit_page_keeps_lines page book_urls out :
  exists added,
    snd (visit_page get urljoin base_url page (book_urls, out)) = out ++ added.
Proof.
  unfold visit_page.
  destruct (get (page_url_of base_url page)) as [books|e]; simpl.
  - rewrite books_loop_result.
    destruct (first_link_error books); rewrite <- ?app_assoc; eexists; reflexivity.
  - rewrite <- app_assoc. eexists. reflexivity.
Qed.

Lemma pages_loop_urls : forall pages state,
  fst (pages_loop get urljoin base_url pages state)
  = fst state ++ flat_map (page_contribution get urljoin base_url) pages.
Proof.
  induction pages as [|page pages IH]; intros [book_urls out].
  - simpl. now rewrite app_nil_r.
  - cbn [pages_loop flat_map]. rewrite IH, visit_page_urls. cbn [fst].
    now rewrite <- app_assoc.
Qed.

Lemma pages_loop_keeps_lines : forall pages state l,
  In l (snd state) -> In l (snd (pages_loop get urljoin base_url pages state)).
Proof.
  induction pages as [|page pages IH]; intros [book_urls out] l Hin;
    cbn [pages_loop].
  - exact Hin.
  - apply IH.
    destruct (visit_page_keeps_lines page book_urls out) as [added ->].
    apply in_or_app. now left.
Qed.

Lemma pages_loop_errors : forall pages state page e,
  In page pages ->
  page_error get base_url page = Some e ->
  In (ErrorOnPage page e) (snd (pages_loop get urljoin base_url pages state)).
Proof.
  induction pages as [|p pages IH]; intros [book_urls out] page e Hin Herr;
    cbn [pages_loop In] in *.
  - destruct Hin.
  - destruct Hin as [->|Hin].
    + apply pages_loop_keeps_lines.
      destruct (visit_page_error page book_urls out e Herr) as [shown ->].
      apply in_or_app. right. now left.
    + now apply IH.
Qed.

Lemma get_book_urls_pages total_pages :
  get_book_urls get urljoin base_url total_pages
  = flat_map (page_contribution get urljoin base_url) (range 1 (total_pages + 1)).
Proof.
  unfold get_book_urls, get_book_urls_run. now rewrite pages_loop_urls.
Qed.

End Collection.

Lemma in_range_iff lo hi page : In page (range lo hi) <-> lo <= page < hi.
Proof.
  unfold range. rewrite in_map_iff. split.
  - intros (i & <- & Hi). apply in_seq in Hi. lia.
  - intros H. exists (Z.to_nat (page - lo)). split; [lia|].
    apply in_seq. lia.
Qed.

Lemma append_same_left s : forall x, (s ++ x)%string = s -> x = EmptyString.
Proof.
  induction s as [|c s IH]; simpl; intros x H; [exact H|].
  apply IH. congruence.
Qed.

Lemma page_url_differs_from_root base_url page :
  page <> 1 -> page_url_of base_url page <> base_url.
Proof.
  intros Hpage. unfold page_url_of.
  destruct (Z.eqb_spec page 1) as [|_]; [contradiction|].
  intros H. apply append_same_left in H. discriminate.
Qed.

(** C5 (as amended).  Collection visits every listing page from 1 to
    [total_pages] whatever happens on the pages before it, and the
    result is what the pages add, in page order.  A page whose fetch
    raises adds no URL; a page on which a link cannot be read adds the
    URLs of the containers before that one; each such failure is
    printed with the exception. *)
Theorem listing_failure_is_not_fatal :
  forall get urljoin base_url total_pages,
    get_book_urls get urljoin base_url total_pages
    = flat_map (page_contribution get urljoin base_url) (range 1 (total_pages + 1)) /\
    (forall page e,
        get (page_url_of base_url page) = Raise e ->
        page_contribution get urljoin base_url page = []) /\
    (forall page books,
        get (page_url_of base_url page) = Ok books ->
        page_contribution get urljoin base_url page
        = map (urljoin (page_url_of base_url page)) (links_before_failure books)) /\
    (forall page e,
        1 <= page <= total_pages ->
        page_error get base_url page = Some e ->
        In (ErrorOnPage page e)
           (snd (get_book_urls_run get urljoin base_url total_pages))).
Proof.
  intros get urljoin base_url total_pages.
  split; [apply get_book_urls_pages|].
  unfold page_contribution, page_links.
  split; [|split].
  - intros page e ->. reflexivity.
  - intros page books ->. reflexivity.
  - intros page e Hpage Herr. unfold get_book_urls_run.
    apply pages_loop_errors; [|assumption].
    apply in_range_iff. lia.
Qed.

Lemma listing_failure_witness :
  get_book_urls broken_site urljoin_relative "https://books.toscrape.com/" 2
  = ["https://books.toscrape.com/catalogue/a_1/index.html"] /\
  page_contribution broken_site urljoin_relative "https://books.toscrape.com/" 1 = [] /\
  In (ErrorOnPage 2 AttributeError)
     (snd (get_book_urls_run broken_site urljoin_relative
             "https://books.toscrape.com/" 2)).
Proof.
  pose proof (listing_failure_is_not_fatal broken_site urljoin_relative
                "https://books.toscrape.com/" 2) as (Hall & Hfetch & _ & Hlog).
  split; [rewrite Hall; reflexivity|].
  split.
  - exact (Hfetch 1 RequestException eq_refl).
  - apply Hlog; [lia | reflexivity].
Defined.

(** C5 as written fails: the second page of [broken_site] fails on its
    second container, and still gives one URL. *)
Lemma listing_failure_counterexample :
  page_error broken_site "https://books.toscrape.com/" 2 = Some AttributeError /\
  page_contribution broken_site urljoin_relative "https://books.toscrape.com/" 2
  = ["https://books.toscrape.com/catalogue/a_1/index.html"] /\
  get_book_urls_run broken_site urljoin_relative "https://books.toscrape.com/" 2
  = (["https://books.toscrape.com/catalogue/a_1/index.html"],
     [CrawlingPage 1; ErrorOnPage 1 RequestException;
      CrawlingPage 2; FoundBooks 3; ErrorOnPage 2 AttributeError]).
Proof. repeat split; reflexivity. Qed.

(** C9.  Every URL collected is the join of a link with the URL of the
    listing page that link was found on, and every link found is
    collected that way.  For a page other than the first that URL is
    not the site root: page 3 is joined against
    [base_url ++ "catalogue/page-3.html"]; the first page is the root
    itself. *)
Theorem links_resolved_against_own_page :
  forall get urljoin base_url total_pages,
    (forall book_url,
        In book_url (get_book_urls get urljoin base_url total_pages) <->
        exists page link,
          1 <= page <= total_pages /\
          In link (page_links get base_url page) /\
          book_url = urljoin (page_url_of base_url page) link) /\
    (forall page, page <> 1 -> page_url_of base_url page <> base_url) /\
    page_url_of base_url 3 = (base_url ++ "catalogue/page-3.html")%string /\
    page_url_of base_url 1 = base_url.
Proof.
  intros get urljoin base_url total_pages.
  split; [|split; [apply page_url_differs_from_root | split; reflexivity]].
  intros book_url. rewrite get_book_urls_pages, in_flat_map.
  unfold page_contribution. split.
  - intros (page & Hpage & Hin). apply in_range_iff in Hpage.
    apply in_map_iff in Hin. destruct Hin as (link & <- & Hlink).
    exists page, link. repeat split; auto; lia.
  - intros (page & link & Hpage & Hlink & ->).
    exists page. split; [apply in_range_iff; lia|].
    apply in_map_iff. now exists link.
Qed.

Lemma links_resolved_witness :
  In "https://books.toscrape.com/catalogue/a_1/index.html"
     (get_book_urls third_page_site urljoin_relative "https://books.toscrape.com/" 3) /\
  "https://books.toscrape.com/catalogue/a_1/index.html"
  <> urljoin_relative "https://books.toscrape.com/" "a_1/index.html".
Proof.
  split.
  - apply (proj1 (links_resolved_against_own_page third_page_site urljoin_relative
                    "https://books.toscrape.com/" 3)).
    exists 3, "a_1/index.html". repeat split; try lia.
    now left.
  - discriminate.
Defined.

End ListingFacts.

Module WorkerFacts.

Import Extract Worker Reading.

Lemma worker_process_item get book_url rest result_queue :
  worker_process get (Item book_url :: rest) result_queue
  = worker_process get rest (result_queue ++ [scrape_book get book_url]).
Proof. simpl. now destruct (scrape_book get book_url). Qed.

Lemma worker_process_items get tail : forall book_urls result_queue,
  worker_process get (map Item book_urls ++ tail) result_queue
  = worker_process get tail (result_queue ++ map (scrape_book get) book_urls).
Proof.
  induction book_urls as [|u book_urls IH]; intros result_queue.
  - simpl. now rewrite app_nil_r.
  - cbn [map app]. rewrite worker_process_item, IH.
    now rewrite <- app_assoc.
Qed.

(** C2 (as amended).  A worker scrapes the URLs it pops, one outcome
    each, until the first pop that is not a URL.  A pop that times out
    makes it leave at once through its exception handler, whatever the
    queue would have delivered later; a stop request makes it leave
    normally; a queue that falls silent is the same timeout. *)
Theorem worker_leaves_on_first_timeout :
  forall get book_urls later result_queue,
    worker_process get (map Item book_urls ++ PopTimeout :: later) result_queue
    = (Crashed, result_queue ++ map (scrape_book get) book_urls, later) /\
    worker_process get (map Item book_urls ++ StopRequest :: later) result_queue
    = (Stopped, result_queue ++ map (scrape_book get) book_urls, later) /\
    worker_process get (map Item book_urls) result_queue
    = (Crashed, result_queue ++ map (scrape_book get) book_urls, []).
Proof.
  intros get book_urls later result_queue.
  repeat split.
  - now rewrite worker_process_items.
  - now rewrite worker_process_items.
  - rewrite <- (app_nil_r (map Item book_urls)).
    now rewrite worker_process_items.
Qed.

(** C2 as written fails: after one timeout the worker is gone, though
    an item and a stop request follow; a worker that retried would have
    scraped the item and stopped on the request. *)
Lemma worker_timeout_counterexample :
  let get := fun _ : string => Ok (sample_page (pound ++ "51.77")) in
  let pops := [PopTimeout; Item "https://books.toscrape.com/catalogue/a_1/index.html";
               StopRequest] in
  worker_process get pops []
  = (Crashed, [], [Item "https://books.toscrape.com/catalogue/a_1/index.html";
                   StopRequest]) /\
  exists book, Spec.worker_retrying get pops [] = (Stopped, [Some book], []).
Proof.
  split; [reflexivity|]. eexists. reflexivity.
Qed.

End WorkerFacts.

Module OrchestratorFacts.

Import Extract Orchestrator Tally.

Lemma same_tally_refl st : same_tally st st.
Proof. repeat split. Qed.

Lemma same_tally_trans a b c : same_tally a b -> same_tally b c -> same_tally a c.
Proof. unfold same_tally; intuition congruence. Qed.

Lemma print_same_tally l st : same_tally (print l st) st.
Proof. repeat split. Qed.

Lemma report_progress_same_tally total st : same_tally (report_progress total st) st.
Proof.
  unfold report_progress.
  destruct (_ =? 0); [apply print_same_tally | apply same_tally_refl].
Qed.

Lemma save_books_same_tally disk st : same_tally (snd (save_books disk st)) st.
Proof. repeat split. Qed.

Lemma auto_save_same_tally disk st st' e :
  auto_save disk st = (st', e) -> same_tally st' st.
Proof.
  unfold auto_save, save_books.
  destruct (_ && _).
  - destruct (disk _); intros [= <- <-]; repeat split.
  - intros [= <- <-]; apply same_tally_refl.
Qed.

(** Whatever else one iteration does, on the three variables it acts as
    [count_outcome]. *)
Lemma loop_body_tally disk total result st st' e :
  loop_body disk total (Outcome result) st = (st', e) ->
  same_tally st' (count_outcome result st).
Proof.
  simpl. intros H.
  eapply same_tally_trans; [eapply auto_save_same_tally; eassumption|].
  apply report_progress_same_tally.
Qed.

Lemma loop_body_timeout disk total st st' e :
  loop_body disk total PullTimeout st = (st', e) -> e = Some QueueEmptyError.
Proof. simpl. congruence. Qed.

Lemma count_outcome_total result st :
  crawled_count (count_outcome result st) + failed_count (count_outcome result st)
  = crawled_count st + failed_count st + 1.
Proof. destruct result; simpl; lia. Qed.

Lemma count_outcome_books result st :
  all_books (count_outcome result st)
  = all_books st ++ successes [Outcome result] /\
  crawled_count (count_outcome result st)
  = crawled_count st + Z.of_nat (List.length (successes [Outcome result])) /\
  failed_count (count_outcome result st)
  = failed_count st + failures [Outcome result].
Proof.
  destruct result; simpl; repeat split; try lia.
  now rewrite app_nil_r.
Qed.

Lemma successes_cons_outcome result ps :
  successes (Outcome result :: ps) = successes [Outcome result] ++ successes ps.
Proof. destruct result; reflexivity. Qed.

Lemma failures_cons_outcome result ps :
  failures (Outcome result :: ps) = failures [Outcome result] + failures ps.
Proof. destruct result; simpl; lia. Qed.

(** A run that leaves through the [while] condition, from any state not
    yet past the total. *)
Lemma aggregate_completed_from disk total pulls :
  forall st st' rest,
    crawled_count st + failed_count st <= total ->
    aggregate disk total pulls st = (Completed, st', rest) ->
    exists consumed,
      pulls = consumed ++ rest /\
      Forall is_outcome consumed /\
      Z.of_nat (List.length consumed) = total - (crawled_count st + failed_count st) /\
      all_books st' = all_books st ++ successes consumed /\
      crawled_count st' = crawled_count st + Z.of_nat (List.length (successes consumed)) /\
      failed_count st' = failed_count st + failures consumed.
Proof.
  induction pulls as [|p pulls IH]; intros st st' rest Hle; simpl.
  - destruct (Z.ltb_spec (crawled_count st + failed_count st) total) as [Hlt|Hge].
    + discriminate.
    + intros [= <- <-]. exists []. simpl.
      repeat split; try lia; auto; now rewrite app_nil_r.
  - destruct (Z.ltb_spec (crawled_count st + failed_count st) total) as [Hlt|Hge].
    + destruct (loop_body disk total p st) as [st1 [e|]] eqn:Hbody; [discriminate|].
      destruct p as [result|].
      2:{ apply loop_body_timeout in Hbody. discriminate. }
      apply loop_body_tally in Hbody. destruct Hbody as (Hb & Hc & Hf).
      pose proof (count_outcome_total result st) as Htot.
      pose proof (count_outcome_books result st) as (Hb1 & Hc1 & Hf1).
      intros Hrun. apply IH in Hrun; [|lia].
      destruct Hrun as (consumed & -> & Hall & Hlen & Hbooks & Hcr & Hfl).
      exists (Outcome result :: consumed).
      rewrite successes_cons_outcome, failures_cons_outcome.
      repeat split.
      * constructor; [exact I | assumption].
      * simpl List.length. lia.
      * rewrite Hbooks, Hb, Hb1. now rewrite app_assoc.
      * rewrite Hcr, Hc, Hc1, length_app. lia.
      * rewrite Hfl, Hf, Hf1. lia.
    + intros [= <- <-]. exists []. simpl.
      repeat split; try lia; auto; now rewrite app_nil_r.
Qed.

(** C1.  When the aggregation loop ends because its condition became
    false (not by the [break] taken on a timeout), the succeeded count
    plus the failed count equals the number of dispatched URLs; the loop
    has then made exactly that many pulls, each of which returned an
    outcome, and left the rest of the queue alone; the list holds the
    successful outcomes once each, in order, and the two counters count
    the successes and the failures among the pulls made. *)
Theorem aggregate_completed_counts :
  forall disk (book_urls : list string) pulls st' rest,
    aggregate disk (Z.of_nat (List.length book_urls)) pulls initial
      = (Completed, st', rest) ->
    crawled_count st' + failed_count st' = Z.of_nat (List.length book_urls) /\
    exists consumed,
      pulls = consumed ++ rest /\
      List.length consumed = List.length book_urls /\
      Forall is_outcome consumed /\
      all_books st' = successes consumed /\
      crawled_count st' = Z.of_nat (List.length (successes consumed)) /\
      failed_count st' = failures consumed.
Proof.
  intros disk book_urls pulls st' rest Hrun.
  apply aggregate_completed_from in Hrun; [|simpl; lia].
  destruct Hrun as (consumed & Hpulls & Hall & Hlen & Hbooks & Hcr & Hfl).
  simpl in *.
  assert (Hfail : 0 <= failures consumed).
  { clear. induction consumed as [|[[b|]|] ps IH]; cbn [failures]; lia. }
  split; [|exists consumed; repeat split; auto; lia].
  rewrite Hcr, Hfl.
  clear - Hall Hlen.
  revert book_urls Hlen.
  induction Hall as [|p ps Hp _ IH]; intros book_urls Hlen.
  - simpl in *. lia.
  - destruct book_urls as [|u us]; [simpl in Hlen; lia|].
    specialize (IH us).
    destruct p as [[b|]|]; [| |destruct Hp];
      cbn [successes failures List.length] in *; lia.
Qed.

Lemma aggregate_completed_witness :
  let pulls := [Outcome (Some sample_book); Outcome None; Outcome None] in
  let run := aggregate (fun _ => true) (Z.of_nat (List.length ["a"; "b"]))
               pulls initial in
  crawled_count (snd (fst run)) + failed_count (snd (fst run)) = 2 /\
  snd run = [Outcome None].
Proof.
  intros pulls run.
  split; [|reflexivity].
  exact (proj1 (aggregate_completed_counts (fun _ => true) ["a"; "b"] pulls
                  (snd (fst run)) (snd run) eq_refl)).
Defined.

Lemma count_outcome_consistent result st :
  consistent st -> consistent (count_outcome result st).
Proof.
  intros [Hlen Hsaves]. destruct result; split; simpl; auto.
  rewrite length_app. simpl. lia.
Qed.

Lemma report_progress_consistent total st :
  consistent st -> consistent (report_progress total st).
Proof. unfold report_progress. destruct (_ =? 0); auto. Qed.

Lemma save_books_consistent disk st :
  consistent st -> consistent (snd (save_books disk st)).
Proof.
  intros [Hlen Hsaves]. split; simpl; [assumption|].
  apply Forall_app; split; [assumption|].
  constructor; [exact Hlen | constructor].
Qed.

Lemma auto_save_consistent disk st st' e :
  consistent st -> auto_save disk st = (st', e) -> consistent st'.
Proof.
  intros Hst. unfold auto_save.
  pose proof (save_books_consistent disk st Hst) as Hsave.
  destruct (_ && _).
  - destruct (save_books disk st) as [[[]|e'] st1]; simpl in Hsave;
      intros [= <- <-]; auto.
  - intros [= <- <-]; auto.
Qed.

Lemma loop_body_consistent disk total p st st' e :
  consistent st -> loop_body disk total p st = (st', e) -> consistent st'.
Proof.
  intros Hst. destruct p as [result|]; simpl.
  - apply auto_save_consistent.
    now apply report_progress_consistent, count_outcome_consistent.
  - now intros [= <- <-].
Qed.

Lemma initial_consistent : consistent initial.
Proof. split; [reflexivity | constructor]. Qed.

Lemma visited_consistent disk total st :
  visited disk total st -> consistent st.
Proof.
  induction 1 as [|st p st' _ IH _ Hbody].
  - apply initial_consistent.
  - eapply loop_body_consistent; eassumption.
Qed.

Lemma aggregate_consistent disk total pulls :
  forall st how st' rest,
    consistent st ->
    aggregate disk total pulls st = (how, st', rest) ->
    consistent st'.
Proof.
  induction pulls as [|p pulls IH]; intros st how st' rest Hst; simpl.
  - destruct (_ <? _); intros [= <- <- <-]; auto.
  - destruct (_ <? _); [|intros [= <- <- <-]; auto].
    destruct (loop_body disk total p st) as [st1 [e|]] eqn:Hbody.
    + intros [= <- <- <-].
      now apply (loop_body_consistent _ _ _ _ _ _ Hst) in Hbody.
    + apply IH. eapply loop_body_consistent; eassumption.
Qed.

(** With a disk that takes every write and a queue that delivers, the
    loop does reach its normal exit. *)
Lemma aggregate_completes disk total :
  (forall k, disk k = true) ->
  forall pulls st,
    Forall is_outcome pulls ->
    crawled_count st + failed_count st + Z.of_nat (List.length pulls) = total ->
    forall later, exists st',
      aggregate disk total (pulls ++ later) st = (Completed, st', later).
Proof.
  intros Hdisk.
  induction pulls as [|p pulls IH]; intros st Hall Hlen later.
  - exists st. simpl in Hlen.
    destruct later; simpl;
      destruct (Z.ltb_spec (crawled_count st + failed_count st) total);
      auto; lia.
  - apply Forall_cons_iff in Hall as [Hp Hall'].
    destruct p as [result|]; [|destruct Hp].
    cbn [List.length] in Hlen.
    cbn [app aggregate].
    destruct (Z.ltb_spec (crawled_count st + failed_count st) total); [|lia].
    destruct (loop_body disk total (Outcome result) st) as [st1 e] eqn:Hbody.
    pose proof (loop_body_tally _ _ _ _ _ _ Hbody) as (_ & Hc & Hf).
    pose proof (count_outcome_total result st) as Htot.
    assert (e = None) as ->.
    { revert Hbody. simpl. unfold auto_save, save_books.
      rewrite Hdisk. destruct (_ && _); congruence. }
    apply IH; [assumption | lia].
Qed.

(** C10.  Throughout the aggregation loop the length of the record list
    equals the succeeded count: it holds in every state the loop passes
    through; an iteration that pulls a success appends that record once
    and adds one to the count, any other iteration leaves both alone;
    so every call of [save_books], the checkpoints and the final save,
    is handed exactly as many records as there were successes then. *)
Theorem record_list_length_is_succeeded_count :
  forall disk,
    (forall total st, visited disk total st -> consistent st) /\
    (forall total st p st' e,
        visited disk total st ->
        loop_body disk total p st = (st', e) ->
        consistent st' /\
        match p with
        | Outcome (Some book) =>
            all_books st' = all_books st ++ [book] /\
            crawled_count st' = crawled_count st + 1
        | _ =>
            all_books st' = all_books st /\
            crawled_count st' = crawled_count st
        end) /\
    (forall book_urls pulls how final st,
        main_crawl disk book_urls pulls = (how, final, st) ->
        consistent st /\
        exists earlier ok,
          saves st = earlier ++ [{| saved := all_books st;
                                    successes_then := crawled_count st;
                                    written := ok |}]).
Proof.
  intros disk. split; [|split].
  - apply visited_consistent.
  - intros total st p st' e Hvis Hbody.
    split.
    { eapply loop_body_consistent; [|eassumption].
      eapply visited_consistent; eassumption. }
    destruct p as [[book|]|].
    + apply loop_body_tally in Hbody. destruct Hbody as (Hb & Hc & _).
      now rewrite Hb, Hc.
    + apply loop_body_tally in Hbody. destruct Hbody as (Hb & Hc & _).
      now rewrite Hb, Hc.
    + simpl in Hbody. now injection Hbody as <- _.
  - intros book_urls pulls how final st. unfold main_crawl.
    destruct (aggregate _ _ _ _) as [[how' st1] rest] eqn:Hrun.
    apply aggregate_consistent in Hrun; [|apply initial_consistent].
    pose proof (save_books_consistent disk st1 Hrun) as Hfinal.
    unfold save_books in *. simpl in Hfinal.
    intros [= <- <- <-]. split; [exact Hfinal|].
    simpl. eexists _, _. reflexivity.
Qed.

Lemma record_list_length_witness :
  consistent
    (snd (main_crawl (fun _ => true) ["a"; "b"]
            [Outcome (Some sample_book); Outcome None])).
Proof.
  destruct (main_crawl (fun _ => true) ["a"; "b"]
              [Outcome (Some sample_book); Outcome None])
    as [[how final] st] eqn:Hrun.
  exact (proj1 (proj2 (proj2 (record_list_length_is_succeeded_count _))
                  _ _ _ _ _ Hrun)).
Defined.

(** C3 (as amended).  When a checkpoint is due after an outcome has been
    counted and its write fails, the loop leaves at once through its
    exception handler, with the timeout message as the report: the
    outcome stays counted, nothing more is pulled from the queue, the
    failed call is on record, and the save that follows the loop is
    handed the same list again. *)
Theorem checkpoint_failure_ends_aggregation :
  forall disk total result st pulls,
    crawled_count st + failed_count st < total ->
    checkpoint_due (count_outcome result st) = true ->
    disk (List.length (saves st)) = false ->
    exists st',
      aggregate disk total (Outcome result :: pulls) st = (Broke, st', pulls) /\
      same_tally st' (count_outcome result st) /\
      saves st' = saves st ++ [{| saved := all_books st';
                                  successes_then := crawled_count st';
                                  written := false |}] /\
      (exists shown, out st' = shown ++ [TimeoutWaiting]) /\
      saves (snd (save_books disk st'))
      = saves st' ++ [{| saved := all_books st';
                         successes_then := crawled_count st';
                         written := disk (S (List.length (saves st))) |}].
Proof.
  intros disk total result st pulls Hlt Hdue Hdisk.
  cbn [aggregate].
  destruct (Z.ltb_spec (crawled_count st + failed_count st) total); [|lia].
  cbn [loop_body]. unfold auto_save.
  set (st1 := report_progress total (count_outcome result st)).
  assert (Ht : same_tally st1 (count_outcome result st))
    by apply report_progress_same_tally.
  assert (Hs : saves st1 = saves st).
  { unfold st1, report_progress. destruct (_ =? 0); destruct result; reflexivity. }
  destruct Ht as (Hb & Hc & Hf).
  unfold checkpoint_due in Hdue. rewrite <- Hc in Hdue. rewrite Hdue.
  unfold save_books. rewrite Hs, Hdisk.
  eexists. split; [reflexivity|].
  unfold print, same_tally.
  cbn [all_books crawled_count failed_count saves out].
  rewrite length_app, Nat.add_1_r. cbn [List.length].
  repeat split; auto.
  eexists. reflexivity.
Qed.

Lemma checkpoint_failure_witness :
  fst (fst (aggregate (fun _ => false) 21
              [Outcome (Some sample_book); Outcome None] after_nineteen))
  = Broke.
Proof.
  destruct (checkpoint_failure_ends_aggregation (fun _ => false) 21
              (Some sample_book) after_nineteen [Outcome None]
              eq_refl eq_refl eq_refl) as (st' & Hrun & _).
  rewrite Hrun. reflexivity.
Defined.

(** C3 as written fails: twenty-one outcomes are waiting, the write of
    the checkpoint after the twentieth fails, and the loop stops there,
    one outcome short, leaving it in the queue. *)
Lemma checkpoint_failure_counterexample :
  let pulls := repeat (Outcome (Some sample_book)) 21 in
  let '(how, st, rest) := aggregate (fun _ => false) 21 pulls initial in
  Forall is_outcome pulls /\
  how = Broke /\
  crawled_count st + failed_count st = 20 /\
  rest = [Outcome (Some sample_book)].
Proof.
  vm_compute. repeat split; try discriminate.
  repeat constructor.
Qed.

End OrchestratorFacts.

(** ** More on field extraction *)

Module ExtractMore.

Import PyText Extract Reading Observing TextFacts ExtractFacts.

Lemma digits_value_nonneg : forall s acc n,
  0 <= acc -> digits_value s acc = Some n -> 0 <= n.
Proof.
  induction s as [|c s IH]; intros acc n Hacc; cbn [digits_value].
  - intros [= <-]. exact Hacc.
  - destruct (digit_value c) as [d|] eqn:Hd; [|discriminate].
    apply digit_value_bounds in Hd.
    intros H. eapply IH; [|exact H]. lia.
Qed.

Lemma Qred_nonneg (n : Z) (d : positive) : 0 <= n -> (0 <= Qred (n # d))%Q.
Proof.
  intros Hn. rewrite Qred_correct. unfold Qle. simpl. lia.
Qed.

Lemma float_nonneg s q : float s = Ok q -> (0 <= q)%Q.
Proof.
  unfold float.
  destruct (split_point s) as [whole [frac|]].
  - destruct (truthy whole || truthy frac); [|discriminate].
    destruct (digits_value whole 0) as [n|] eqn:Hn; [|discriminate].
    destruct (digits_value frac 0) as [f|] eqn:Hf; [|discriminate].
    apply digits_value_nonneg in Hn; [|lia].
    apply digits_value_nonneg in Hf; [|lia].
    intros [= <-]. apply Qred_nonneg. nia.
  - destruct (truthy whole); [|discriminate].
    destruct (digits_value whole 0) as [n|] eqn:Hn; [|discriminate].
    apply digits_value_nonneg in Hn; [|lia].
    intros [= <-]. now apply Qred_nonneg.
Qed.

Lemma clean_price_nonneg price_text q :
  clean_price price_text = Ok q -> (0 <= q)%Q.
Proof.
  rewrite clean_price_unfolded.
  destruct (keep_only kept price_text) eqn:Hk.
  - intros [= <-]. apply Qle_refl.
  - apply float_nonneg.
Qed.

(** X1.  A price that [clean_price] returns is never negative: a minus
    sign in the text is dropped with the other characters. *)
Theorem price_is_never_negative :
  forall price_text q, clean_price price_text = Ok q -> (0 <= q)%Q.
Proof.
  intros price_text q. rewrite clean_price_unfolded.
  destruct (keep_only kept price_text) as [|c stripped].
  - intros [= <-]. apply Qle_refl.
  - apply float_nonneg.
Qed.

Lemma price_is_never_negative_witness : (0 <= 25 # 2)%Q.
Proof.
  apply (price_is_never_negative "-12.50 GBP"). reflexivity.
Defined.

Lemma keep_only_idempotent f s : keep_only f (keep_only f s) = keep_only f s.
Proof.
  induction s as [|c s IH]; simpl; [reflexivity|].
  destruct (f c) eqn:Hc; simpl; [|exact IH].
  now rewrite Hc, IH.
Qed.

(** X2.  Only the digits and points of a price text matter: two texts
    that agree once every other character is removed get the same
    result from [clean_price], price or exception. *)
Theorem price_depends_on_digits_and_points_only :
  forall a b,
    keep_only kept a = keep_only kept b -> clean_price a = clean_price b.
Proof.
  intros a b H. now rewrite !clean_price_unfolded, H.
Qed.

Lemma price_depends_witness :
  clean_price (pound ++ "51.77") = clean_price "GBP 51,-.77 each".
Proof.
  apply price_depends_on_digits_and_points_only. reflexivity.
Defined.

Lemma scrape_table_ok tbl : exists cells, scrape_table tbl = Ok cells.
Proof.
  destruct tbl as [rows|]; simpl; [rewrite scan_rows_result|]; eauto.
Qed.

Lemma scrape_rating_range rating_elem : 0 <= scrape_rating rating_elem <= 5.
Proof.
  destruct rating_elem as [elem|]; [|simpl; lia].
  unfold scrape_rating, rating_map. cbn [rating_loop].
  repeat match goal with
         | |- context [contains ?w elem] => destruct (contains w elem)
         end; lia.
Qed.

(** The record [scrape_fields] builds once the price is there. *)
Lemma scrape_fields_ok book_url r q :
  status_code r = 200 ->
  match price_color (soup r) with
  | Some t => clean_price t
  | None => Ok 0%Q
  end = Ok q ->
  exists cells,
    scrape_table (table (soup r)) = Ok cells /\
    scrape_fields book_url r
    = Ok (Some {| url := book_url;
                  title := match h1 (soup r) with Some t => t | None => "No title" end;
                  category := scrape_category (breadcrumb (soup r));
                  rating := scrape_rating (star_rating (soup r));
                  upc := fst cells;
                  price := q;
                  currency := "GBP";
                  in_stock := match instock_availability (soup r) with
                              | Some t => contains "In stock" t
                              | None => false
                              end;
                  reviews := snd cells |}).
Proof.
  intros Hstatus Hprice.
  destruct (scrape_table_ok (table (soup r))) as [cells Hcells].
  exists cells. split; [exact Hcells|].
  unfold scrape_fields. rewrite Hstatus. cbn [Z.eqb Pos.eqb negb].
  rewrite Hprice. cbn [bind]. now rewrite Hcells.
Qed.



(** X4.  Every record [scrape_book] returns comes from a response with
    status 200 and carries the URL that was asked for, the currency
    "GBP", a rating from 0 to 5 and a price that is not negative; its
    title, category and stock flag are those of the page, or the
    defaults "No title", "Unknown" and [false] where the page has no
    such element. *)
Theorem scraped_record_is_well_formed :
  forall get book_url book,
    scrape_book get book_url = Some book ->
    exists r,
      get book_url = Ok r /\ status_code r = 200 /\
      url book = book_url /\
      currency book = "GBP" /\
      0 <= rating book <= 5 /\
      (0 <= price book)%Q /\
      title book = match h1 (soup r) with Some t => t | None => "No title" end /\
      category book = match breadcrumb (soup r) with
                      | Some (_ :: _ :: third :: _) => third
                      | _ => "Unknown"
                      end /\
      in_stock book = match instock_availability (soup r) with
                      | Some t => contains "In stock" t
                      | None => false
                      end.
Proof.
  intros get book_url book. unfold scrape_book.
  destruct (get book_url) as [r|e] eqn:Hget; cbn [bind]; [|discriminate].
  destruct (Z.eq_dec (status_code r) 200) as [Hstatus|Hstatus].
  2:{ unfold scrape_fields.
      destruct (Z.eqb_spec (status_code r) 200); [contradiction | discriminate]. }
  destruct (match price_color (soup r) with
            | Some t => clean_price t
            | None => Ok 0%Q
            end) as [q|e] eqn:Hprice.
  2:{ unfold scrape_fields. rewrite Hstatus. cbn [Z.eqb Pos.eqb negb].
      rewrite Hprice. discriminate. }
  destruct (scrape_fields_ok book_url r q Hstatus Hprice) as (cells & _ & ->).
  intros [= <-]. exists r.
  cbn [url currency rating price title category in_stock].
  split; [reflexivity|]. split; [exact Hstatus|].
  split; [reflexivity|]. split; [reflexivity|].
  split; [apply scrape_rating_range|].
  split.
  { destruct (price_color (soup r)) as [t|].
    - eapply clean_price_nonneg; eassumption.
    - injection Hprice as <-. apply Qle_refl. }
  split; [reflexivity|]. split; [|reflexivity].
  unfold scrape_category.
  destruct (breadcrumb (soup r)) as [[|a [|b [|c items]]]|]; try reflexivity.
  destruct (Z.leb_spec 3 (Z.of_nat (List.length (a :: b :: c :: items))))
    as [_|Hshort]; [reflexivity|].
  cbn [List.length] in Hshort. lia.
Qed.

Lemma scraped_record_witness :
  exists r,
    status_code r = 200 /\
    h1 (soup r) = Some "A Light in the Attic".
Proof.
  destruct (scraped_record_is_well_formed
              (fun _ => Ok (sample_page (pound ++ "51.77")))
              "https://books.toscrape.com/x" _ eq_refl)
    as (r & Hget & Hstatus & _).
  exists r. split; [exact Hstatus|].
  injection Hget as <-. reflexivity.
Defined.

Lemma last_such_filter {A : Type} (f g : A -> bool) :
  (forall x, f x = true -> g x = true) ->
  forall l, last_such f (filter g l) = last_such f l.
Proof.
  intros Hfg. induction l as [|x l IH]; [reflexivity|].
  cbn [filter last_such].
  destruct (g x) eqn:Hg.
  - cbn [last_such]. now rewrite IH.
  - rewrite IH. destruct (last_such f l); [reflexivity|].
    destruct (f x) eqn:Hf; [|reflexivity].
    apply Hfg in Hf. congruence.
Qed.

(** X5.  The scan of the product table is decided by the rows it acts
    on: rows that lack a label cell or a value cell, and rows whose
    label has neither "UPC" nor "review" in it, can be removed without
    changing upc or the review count. *)
Theorem table_scan_ignores_other_rows :
  forall rows,
    scrape_table (Some rows) = scrape_table (Some (filter relevant_row rows)).
Proof.
  intros rows. cbn [scrape_table]. rewrite !scan_rows_result.
  rewrite !last_such_filter; [reflexivity| |];
    intros r Hr; unfold relevant_row; rewrite Hr;
    auto using orb_true_r.
Qed.

End ExtractMore.

(** ** More on URL collection *)

Module ListingMore.

Import Listing Reading Observing ListingFacts.

Section Visits.

Variable get : listing_http.
Variable urljoin : string -> string -> string.
Variable base_url : string.

Lemma visit_page_lines page book_urls out :
  snd (visit_page get urljoin base_url page (book_urls, out))
  = out ++ page_lines get base_url page.
Proof.
  unfold visit_page, page_lines.
  destruct (get (page_url_of base_url page)) as [books|e]; cbn [snd].
  - rewrite books_loop_result.
    destruct (first_link_error books); cbn [snd];
      rewrite <- ?app_assoc; reflexivity.
  - now rewrite <- app_assoc.
Qed.

Lemma pages_loop_lines : forall pages state,
  snd (pages_loop get urljoin base_url pages state)
  = snd state ++ flat_map (page_lines get base_url) pages.
Proof.
  induction pages as [|page pages IH]; intros [book_urls out].
  - simpl. now rewrite app_nil_r.
  - cbn [pages_loop flat_map]. rewrite IH, visit_page_lines. cbn [snd].
    now rewrite <- app_assoc.
Qed.

Lemma run_lines total_pages :
  snd (get_book_urls_run get urljoin base_url total_pages)
  = flat_map (page_lines get base_url) (range 1 (total_pages + 1)).
Proof. unfold get_book_urls_run. now rewrite pages_loop_lines. Qed.

Lemma pages_announced_app a b :
  pages_announced (a ++ b) = pages_announced a ++ pages_announced b.
Proof.
  induction a as [|[page|n|page e] a IH]; simpl; congruence.
Qed.

Lemma pages_announced_page_lines page :
  pages_announced (page_lines get base_url page) = [page].
Proof.
  unfold page_lines.
  destruct (get (page_url_of base_url page)) as [books|e]; [|reflexivity].
  now destruct (first_link_error books).
Qed.

Lemma pages_announced_all pages :
  pages_announced (flat_map (page_lines get base_url) pages) = pages.
Proof.
  induction pages as [|page pages IH]; [reflexivity|].
  cbn [flat_map]. rewrite pages_announced_app, pages_announced_page_lines, IH.
  reflexivity.
Qed.

Lemma error_line_sound pages page e :
  In (ErrorOnPage page e) (flat_map (page_lines get base_url) pages) ->
  In page pages /\ page_error get base_url page = Some e.
Proof.
  rewrite in_flat_map. intros (p & Hp & Hin).
  unfold page_lines, page_error in *.
  destruct Hin as [Hin|Hin]; [discriminate|].
  destruct (get (page_url_of base_url p)) as [books|e'] eqn:Hget.
  - destruct Hin as [Hin|Hin]; [discriminate|].
    destruct (first_link_error books) as [e'|] eqn:Hfirst; [|destruct Hin].
    destruct Hin as [[= <- <-]|[]]. rewrite Hget. auto.
  - destruct Hin as [[= <- <-]|[]]. rewrite Hget. auto.
Qed.

End Visits.

Lemma range_empty lo hi : hi <= lo -> range lo hi = [].
Proof.
  intros H. unfold range.
  replace (Z.to_nat (hi - lo)) with O by lia. reflexivity.
Qed.

(** X6.  [get_book_urls] announces the listing pages 1, 2, ...,
    [total_pages] in that order, each once, whatever the fetches give;
    with [total_pages] zero or negative it requests nothing, prints
    nothing and returns the empty list. *)
Theorem listing_pages_visited_in_order :
  forall get urljoin base_url total_pages,
    pages_announced (snd (get_book_urls_run get urljoin base_url total_pages))
    = range 1 (total_pages + 1) /\
    List.length (range 1 (total_pages + 1)) = Z.to_nat total_pages /\
    (total_pages <= 0 ->
     get_book_urls_run get urljoin base_url total_pages = ([], [])).
Proof.
  intros get urljoin base_url total_pages.
  split; [|split].
  - rewrite run_lines. apply pages_announced_all.
  - unfold range. rewrite length_map, length_seq. lia.
  - intros Hn. unfold get_book_urls_run.
    rewrite range_empty by lia. reflexivity.
Qed.

Lemma listing_pages_witness :
  get_book_urls_run broken_site urljoin_relative "https://books.toscrape.com/" (-2)
  = ([], []).
Proof.
  apply (proj2 (proj2 (listing_pages_visited_in_order _ _ _ _))). lia.
Defined.

Lemma pages_loop_agree get1 get2 urljoin base_url : forall pages state,
  (forall page, In page pages ->
                get1 (page_url_of base_url page) = get2 (page_url_of base_url page)) ->
  pages_loop get1 urljoin base_url pages state
  = pages_loop get2 urljoin base_url pages state.
Proof.
  induction pages as [|page pages IH]; intros state Hagree; [reflexivity|].
  cbn [pages_loop].
  assert (Hvisit : visit_page get1 urljoin base_url page state
                   = visit_page get2 urljoin base_url page state).
  { unfold visit_page. destruct state as [book_urls out].
    now rewrite (Hagree page (or_introl eq_refl)). }
  rewrite Hvisit. apply IH.
  intros p Hp. apply Hagree. now right.
Qed.

(** X7.  [get_book_urls] looks at the listing pages 1 to [total_pages]
    and at nothing else: two sites that answer alike on the URLs of
    those pages give the same URLs and the same printed lines. *)
Theorem collection_reads_listing_pages_only :
  forall get1 get2 urljoin base_url total_pages,
    (forall page, 1 <= page <= total_pages ->
                  get1 (page_url_of base_url page) = get2 (page_url_of base_url page)) ->
    get_book_urls_run get1 urljoin base_url total_pages
    = get_book_urls_run get2 urljoin base_url total_pages.
Proof.
  intros get1 get2 urljoin base_url total_pages Hagree.
  unfold get_book_urls_run. apply pages_loop_agree.
  intros page Hpage. apply in_range_iff in Hpage. apply Hagree. lia.
Qed.

Lemma collection_reads_witness :
  get_book_urls_run broken_site urljoin_relative "https://books.toscrape.com/" 2
  = get_book_urls_run broken_site_apart urljoin_relative "https://books.toscrape.com/" 2.
Proof.
  apply collection_reads_listing_pages_only.
  intros page Hpage.
  assert (Hcases : page = 1 \/ page = 2) by lia.
  destruct Hcases as [-> | ->]; reflexivity.
Defined.

(** X8.  An "Error on page" line is printed only for a page that was
    visited and failed, and it shows the exception of that failure:
    the one of the fetch, or of the first link that could not be
    read. *)
Theorem error_lines_are_sound :
  forall get urljoin base_url total_pages page e,
    In (ErrorOnPage page e)
       (snd (get_book_urls_run get urljoin base_url total_pages)) ->
    1 <= page <= total_pages /\ page_error get base_url page = Some e.
Proof.
  intros get urljoin base_url total_pages page e.
  rewrite run_lines. intros Hin.
  apply error_line_sound in Hin. destruct Hin as [Hpage Herr].
  apply in_range_iff in Hpage. split; [lia | exact Herr].
Qed.

Lemma error_lines_witness :
  page_error broken_site "https://books.toscrape.com/" 2 = Some AttributeError.
Proof.
  refine (proj2 (error_lines_are_sound broken_site urljoin_relative
                   "https://books.toscrape.com/" 2 2 AttributeError _)).
  vm_compute. auto 10.
Defined.

End ListingMore.

(** ** More on the aggregation loop *)

Module LoopMore.

Import Extract Orchestrator Tally Observing OrchestratorFacts.

Lemma successes_app a b : successes (a ++ b) = successes a ++ successes b.
Proof.
  induction a as [|[[book|]|] a IH]; simpl; congruence.
Qed.

Lemma failures_app a b : failures (a ++ b) = failures a + failures b.
Proof.
  induction a as [|[[book|]|] a IH]; cbn [app failures]; lia.
Qed.

(** Whatever the exit, the loop has made a prefix of the pulls, no more
    than the outcomes still missing, and its three variables account
    for that prefix. *)
Lemma aggregate_accounts_from disk total pulls :
  forall st how st' rest,
    crawled_count st + failed_count st <= total ->
    aggregate disk total pulls st = (how, st', rest) ->
    exists consumed,
      pulls = consumed ++ rest /\
      Z.of_nat (List.length consumed) <= total - (crawled_count st + failed_count st) /\
      all_books st' = all_books st ++ successes consumed /\
      crawled_count st' = crawled_count st + Z.of_nat (List.length (successes consumed)) /\
      failed_count st' = failed_count st + failures consumed.
Proof.
  induction pulls as [|p pulls IH]; intros st how st' rest Hle; cbn [aggregate].
  - destruct (Z.ltb_spec (crawled_count st + failed_count st) total) as [Hlt|Hge];
      intros [= <- <- <-]; exists []; cbn; rewrite app_nil_r;
      repeat split; lia.
  - destruct (Z.ltb_spec (crawled_count st + failed_count st) total) as [Hlt|Hge].
    2:{ intros [= <- <- <-]. exists []. cbn. rewrite app_nil_r.
        repeat split; lia. }
    destruct (loop_body disk total p st) as [st1 raised] eqn:Hbody.
    destruct p as [result|].
    + apply loop_body_tally in Hbody. destruct Hbody as (Hb & Hc & Hf).
      pose proof (count_outcome_total result st) as Htot.
      pose proof (count_outcome_books result st) as (Hb1 & Hc1 & Hf1).
      destruct raised as [e|].
      * intros [= <- <- <-]. exists [Outcome result].
        destruct (print_same_tally TimeoutWaiting st1) as (Hpb & Hpc & Hpf).
        rewrite Hpb, Hpc, Hpf, Hb, Hc, Hf.
        repeat split; auto. cbn [List.length]. lia.
      * intros Hrun. apply IH in Hrun; [|lia].
        destruct Hrun as (consumed & -> & Hlen & Hbooks & Hcr & Hfl).
        exists (Outcome result :: consumed).
        rewrite successes_cons_outcome, failures_cons_outcome.
        repeat split.
        -- cbn [List.length]. lia.
        -- rewrite Hbooks, Hb, Hb1. now rewrite app_assoc.
        -- rewrite Hcr, Hc, Hc1, length_app. lia.
        -- rewrite Hfl, Hf, Hf1. lia.
    + cbn in Hbody. injection Hbody as <- <-.
      intros [= <- <- <-]. exists [PullTimeout]. cbn.
      rewrite app_nil_r. repeat split; lia.
Qed.

(** X9.  However the loop ends, nothing pulled is lost and nothing is
    pulled beyond need: the loop has taken a prefix of the queue no
    longer than the number of dispatched URLs, the final save is handed
    the successful records of that prefix in order, and [main] goes on
    to its summary exactly when that last write goes through. *)
Theorem final_save_holds_every_success_pulled :
  forall disk book_urls pulls how final st,
    main_crawl disk book_urls pulls = (how, final, st) ->
    exists consumed rest earlier ok,
      pulls = consumed ++ rest /\
      (List.length consumed <= List.length book_urls)%nat /\
      all_books st = successes consumed /\
      failed_count st = failures consumed /\
      saves st = earlier ++ [{| saved := successes consumed;
                                successes_then := Z.of_nat (List.length (successes consumed));
                                written := ok |}] /\
      ok = disk (List.length earlier) /\
      (final = Ok tt <-> ok = true).
Proof.
  intros disk book_urls pulls how final st. unfold main_crawl.
  destruct (aggregate _ _ _ _) as [[how' st1] rest] eqn:Hrun.
  apply aggregate_accounts_from in Hrun; [|cbn; lia].
  destruct Hrun as (consumed & Hpulls & Hlen & Hbooks & Hcr & Hfl).
  cbn in Hlen, Hbooks, Hcr, Hfl.
  unfold save_books. intros [= <- <- <-].
  exists consumed, rest, (saves st1), (disk (List.length (saves st1))).
  cbn [all_books failed_count saves].
  rewrite Hbooks, Hcr, Hfl.
  repeat split; auto; try lia.
  - now destruct (disk _).
  - intros ->. reflexivity.
Qed.

Lemma final_save_witness :
  exists consumed rest,
    [Outcome (Some sample_book); PullTimeout; Outcome None] = consumed ++ rest /\
    (List.length consumed <= 3)%nat.
Proof.
  destruct (main_crawl (fun _ => true) ["a"; "b"; "c"]
              [Outcome (Some sample_book); PullTimeout; Outcome None])
    as [[how final] st] eqn:Hrun.
  destruct (final_save_holds_every_success_pulled _ _ _ _ _ _ Hrun)
    as (consumed & rest & earlier & ok & Hpulls & Hlen & _).
  exists consumed, rest. split; [exact Hpulls | exact Hlen].
Defined.

Lemma initial_invariant total : 0 <= total -> loop_invariant total initial.
Proof.
  intros H. unfold loop_invariant. cbn.
  repeat split; auto; try lia.
Qed.

Lemma saves_bound_weaken (a b : Z) (calls : list save_call) :
  a <= b ->
  Forall (fun c => due_call c /\ successes_then c <= a) calls ->
  Forall (fun c => due_call c /\ successes_then c <= b) calls.
Proof.
  intros Hab. apply Forall_impl. intros c [Hdue Hle]. split; [exact Hdue | lia].
Qed.

Lemma count_outcome_invariant total result st :
  loop_invariant total st ->
  crawled_count st + failed_count st < total ->
  loop_invariant total (count_outcome result st).
Proof.
  intros (Hc & Hf & Hle & Hout & Hno & Hsaves) Hlt.
  destruct result as [book|]; unfold loop_invariant; cbn;
    repeat split; auto; try lia.
  eapply saves_bound_weaken; [|exact Hsaves]. lia.
Qed.

Lemma report_progress_invariant total st :
  loop_invariant total st ->
  0 < crawled_count st + failed_count st ->
  loop_invariant total (report_progress total st).
Proof.
  intros (Hc & Hf & Hle & Hout & Hno & Hsaves) Hpos.
  unfold report_progress.
  destruct (Z.eqb_spec ((crawled_count st + failed_count st) mod 10) 0) as [Hmod|_].
  - unfold loop_invariant. cbn. repeat split; auto.
    + apply Forall_app. split; [exact Hout|].
      constructor; [|constructor]. cbn. repeat split; auto; lia.
    + intros Hin. apply in_app_or in Hin.
      destruct Hin as [Hin|[Hin|[]]]; [contradiction | discriminate].
  - repeat split; auto.
Qed.

Lemma auto_save_invariant disk total st st' raised :
  loop_invariant total st ->
  auto_save disk st = (st', raised) ->
  loop_invariant total st'.
Proof.
  intros (Hc & Hf & Hle & Hout & Hno & Hsaves). unfold auto_save, save_books.
  destruct (Z.eqb_spec (crawled_count st mod 20) 0) as [Hmod|_];
    cbn [andb]; [|intros [= <- <-]; repeat split; auto].
  destruct (Z.ltb_spec 0 (crawled_count st)) as [Hpos|_];
    [|intros [= <- <-]; repeat split; auto].
  assert (Hcalls : forall ok,
    Forall (fun c => due_call c /\ successes_then c <= crawled_count st)
           (saves st ++ [{| saved := all_books st;
                            successes_then := crawled_count st;
                            written := ok |}])).
  { intros ok. apply Forall_app. split; [exact Hsaves|].
    constructor; [|constructor]. cbn. repeat split; auto; lia. }
  destruct (disk _); intros [= <- <-]; unfold loop_invariant; cbn;
    repeat split; auto.
  - apply Forall_app. split; [exact Hout|].
    constructor; [|constructor]. cbn. split; [exact Hmod | exact Hpos].
  - intros Hin. apply in_app_or in Hin.
    destruct Hin as [Hin|[Hin|[]]]; [contradiction | discriminate].
Qed.

Lemma loop_body_invariant disk total result st st' raised :
  loop_invariant total st ->
  crawled_count st + failed_count st < total ->
  loop_body disk total (Outcome result) st = (st', raised) ->
  loop_invariant total st'.
Proof.
  intros Hinv Hlt. cbn [loop_body].
  apply auto_save_invariant.
  apply report_progress_invariant.
  - now apply count_outcome_invariant.
  - rewrite count_outcome_total. destruct Hinv as (Hc & Hf & _). lia.
Qed.

(** The state a run ends in is a state of the loop, with the timeout
    line added when the loop was left through its handler. *)
Lemma aggregate_ends_in_loop_state disk total pulls :
  forall st how st' rest,
    loop_invariant total st ->
    aggregate disk total pulls st = (how, st', rest) ->
    exists last,
      loop_invariant total last /\
      ((how = Completed /\ st' = last) \/
       (how = Broke /\ st' = print TimeoutWaiting last)).
Proof.
  induction pulls as [|p pulls IH]; intros st how st' rest Hinv; cbn [aggregate].
  - destruct (_ <? _); intros [= <- <- <-]; exists st; auto.
  - destruct (Z.ltb_spec (crawled_count st + failed_count st) total) as [Hlt|_];
      [|intros [= <- <- <-]; exists st; auto].
    destruct (loop_body disk total p st) as [st1 raised] eqn:Hbody.
    destruct p as [result|].
    + apply loop_body_invariant in Hbody; auto.
      destruct raised as [e|]; [|now apply IH].
      intros [= <- <- <-]. exists st1. auto.
    + cbn in Hbody. injection Hbody as <- <-.
      intros [= <- <- <-]. exists st. auto.
Qed.

(** X10.  Inside the loop [save_books] is called only when the success
    count is a positive multiple of 20, so a crawl that ends with fewer
    than twenty successes has made no checkpoint before its final
    save. *)
Theorem checkpoints_come_at_multiples_of_twenty :
  forall disk (book_urls : list string) pulls how st rest,
    aggregate disk (Z.of_nat (List.length book_urls)) pulls initial = (how, st, rest) ->
    Forall due_call (saves st) /\
    (crawled_count st < 20 -> saves st = []).
Proof.
  intros disk book_urls pulls how st rest Hrun.
  apply aggregate_ends_in_loop_state in Hrun; [|apply initial_invariant; lia].
  destruct Hrun as (last & (_ & _ & _ & _ & _ & Hsaves) & Hend).
  assert (Hsame : saves st = saves last /\ crawled_count st = crawled_count last)
    by (destruct Hend as [[_ ->]|[_ ->]]; split; reflexivity).
  destruct Hsame as [-> ->]. split.
  - eapply Forall_impl; [|exact Hsaves]. now intros c [Hdue _].
  - intros Hfew. destruct (saves last) as [|c calls]; [reflexivity|].
    apply Forall_inv in Hsaves. destruct Hsaves as [[Hmod Hpos] Hle].
    exfalso. rewrite Z.mod_small in Hmod by lia. lia.
Qed.

Lemma checkpoints_witness :
  saves (snd (fst (aggregate (fun _ => true) (Z.of_nat (List.length ["a"; "b"]))
                     [Outcome (Some sample_book); Outcome None] initial))) = [].
Proof.
  destruct (aggregate (fun _ => true) (Z.of_nat (List.length ["a"; "b"]))
              [Outcome (Some sample_book); Outcome None] initial)
    as [[how st] rest] eqn:Hrun.
  refine (proj2 (checkpoints_come_at_multiples_of_twenty _ _ _ _ _ _ Hrun) _).
  injection Hrun as _ <- _. reflexivity.
Defined.

(** X11.  What the loop prints is true: a progress line shows the
    number of dispatched URLs, a processed count that is the sum of the
    successes and failures it shows, a multiple of 10 and at most the
    total; an auto-save line shows a positive multiple of 20. *)
Theorem printed_lines_are_truthful :
  forall disk (book_urls : list string) pulls how st rest,
    aggregate disk (Z.of_nat (List.length book_urls)) pulls initial = (how, st, rest) ->
    Forall (truthful (Z.of_nat (List.length book_urls))) (out st).
Proof.
  intros disk book_urls pulls how st rest Hrun.
  apply aggregate_ends_in_loop_state in Hrun; [|apply initial_invariant; lia].
  destruct Hrun as (last & (_ & _ & _ & Hout & _) & [[_ ->]|[_ ->]]); [exact Hout|].
  cbn. apply Forall_app. split; [exact Hout|].
  constructor; [exact I | constructor].
Qed.

Lemma printed_lines_witness :
  Forall (truthful 10)
    (out (snd (fst (aggregate (fun _ => true)
                      (Z.of_nat (List.length (repeat "u" 10)))
                      (repeat (Outcome None) 10) initial)))).
Proof.
  destruct (aggregate (fun _ => true) (Z.of_nat (List.length (repeat "u" 10)))
              (repeat (Outcome None) 10) initial)
    as [[how st] rest] eqn:Hrun.
  exact (printed_lines_are_truthful _ _ _ _ _ _ Hrun).
Defined.

(** X12.  The loop prints "Timeout waiting for results" exactly when it
    is left through its exception handler, and then as its last line;
    a run that ends by the [while] condition never prints it. *)
Theorem timeout_line_marks_broken_run :
  forall disk (book_urls : list string) pulls how st rest,
    aggregate disk (Z.of_nat (List.length book_urls)) pulls initial = (how, st, rest) ->
    (how = Broke <-> In TimeoutWaiting (out st)) /\
    (how = Broke -> exists shown,
        out st = shown ++ [TimeoutWaiting] /\ ~ In TimeoutWaiting shown).
Proof.
  intros disk book_urls pulls how st rest Hrun.
  apply aggregate_ends_in_loop_state in Hrun; [|apply initial_invariant; lia].
  destruct Hrun as (last & (_ & _ & _ & _ & Hno & _) & [[-> ->]|[-> ->]]).
  - split; [split; [discriminate | contradiction] | discriminate].
  - cbn. split.
    + split; [|reflexivity]. intros _. apply in_or_app. right. now left.
    + intros _. exists (out last). auto.
Qed.

Lemma timeout_line_witness :
  In TimeoutWaiting
     (out (snd (fst (aggregate (fun _ => true) (Z.of_nat (List.length ["a"; "b"]))
                       [Outcome None; PullTimeout] initial)))).
Proof.
  destruct (aggregate (fun _ => true) (Z.of_nat (List.length ["a"; "b"]))
              [Outcome None; PullTimeout] initial)
    as [[how st] rest] eqn:Hrun.
  apply (proj1 (proj1 (timeout_line_marks_broken_run _ _ _ _ _ _ Hrun))).
  injection Hrun as <- _ _. reflexivity.
Defined.

Lemma successes_of_permutation a b :
  Permutation a b ->
  Permutation (successes (map Outcome a)) (successes (map Outcome b)).
Proof.
  induction 1 as [|x a b _ IH|x y a|a b c _ IH1 _ IH2].
  - constructor.
  - destruct x as [book|]; cbn; auto.
  - destruct x as [bx|], y as [by'|]; cbn; auto using perm_swap.
  - eapply perm_trans; eassumption.
Qed.

Lemma failures_of_permutation a b :
  Permutation a b -> failures (map Outcome a) = failures (map Outcome b).
Proof.
  induction 1 as [|x a b _ IH|x y a|a b c _ IH1 _ IH2].
  - reflexivity.
  - destruct x as [book|]; cbn [map failures]; lia.
  - destruct x as [bx|], y as [by'|]; cbn [map failures]; lia.
  - congruence.
Qed.

Lemma outcomes_are_outcomes (l : list (option Book)) :
  Forall is_outcome (map Outcome l).
Proof. induction l; constructor; [exact I | assumption]. Qed.

(** X22.  The checkpoint test looks at the success count only, so it
    fires again on a failure: while that count stays at a positive
    multiple of 20, an iteration that pulls a failed outcome calls
    [save_books] once more, with the same list as before. *)
Theorem failure_at_multiple_of_twenty_saves_again :
  forall disk total st st' raised,
    checkpoint_due st = true ->
    loop_body disk total (Outcome None) st = (st', raised) ->
    saves st' = saves st ++ [{| saved := all_books st;
                                successes_then := crawled_count st;
                                written := disk (List.length (saves st)) |}] /\
    all_books st' = all_books st /\
    (raised = None <-> disk (List.length (saves st)) = true).
Proof.
  intros disk total st st' raised Hdue. cbn [loop_body].
  set (st1 := report_progress total (count_outcome None st)).
  assert (Hsame : saves st1 = saves st /\ all_books st1 = all_books st
                  /\ crawled_count st1 = crawled_count st).
  { unfold st1, report_progress. destruct (_ =? 0); repeat split. }
  destruct Hsame as (Hs & Hb & Hc).
  unfold auto_save. unfold checkpoint_due in Hdue. rewrite Hc, Hdue.
  unfold save_books. rewrite Hs, Hb, Hc.
  destruct (disk (List.length (saves st))); intros [= <- <-];
    cbn [saves all_books print]; repeat split; congruence.
Qed.

Lemma failure_saves_again_witness :
  List.length
    (saves (fst (loop_body (fun _ => true) 40 (Outcome None) after_twenty)))
  = 2%nat.
Proof.
  destruct (loop_body (fun _ => true) 40 (Outcome None) after_twenty)
    as [st' raised] eqn:Hbody.
  destruct (failure_at_multiple_of_twenty_saves_again
              (fun _ => true) 40 after_twenty st' raised eq_refl Hbody)
    as (Hsaves & _).
  cbn [fst]. rewrite Hsaves. reflexivity.
Defined.

(** The loop on the outcomes of the dispatched URLs, in any order. *)
Lemma aggregate_on_arrival :
  forall disk get book_urls arrival later,
    (forall k, disk k = true) ->
    Permutation (map (scrape_book get) book_urls) arrival ->
    exists st,
      aggregate disk (Z.of_nat (List.length book_urls))
                (map Outcome arrival ++ later) initial
      = (Completed, st, later) /\
      all_books st = successes (map Outcome arrival) /\
      Permutation (all_books st)
                  (successes (map Outcome (map (scrape_book get) book_urls))) /\
      crawled_count st
      = Z.of_nat (List.length
                    (successes (map Outcome (map (scrape_book get) book_urls)))) /\
      failed_count st
      = failures (map Outcome (map (scrape_book get) book_urls)).
Proof.
  intros disk get book_urls arrival later Hdisk Hperm.
  pose proof (Permutation_length Hperm) as Hlen. rewrite length_map in Hlen.
  destruct (aggregate_completes disk (Z.of_nat (List.length book_urls)) Hdisk
              (map Outcome arrival) initial (outcomes_are_outcomes arrival))
    with (later := later) as [st Hrun].
  { cbn. rewrite length_map. lia. }
  exists st. split; [exact Hrun|].
  apply aggregate_accounts_from in Hrun; [|cbn; lia].
  destruct Hrun as (consumed & Happ & _ & Hbooks & Hcr & Hfl).
  apply app_inv_tail in Happ. subst consumed.
  cbn in Hbooks, Hcr, Hfl.
  pose proof (successes_of_permutation _ _ Hperm) as Hsucc.
  split; [exact Hbooks|]. split; [|split].
  - rewrite Hbooks. now apply Permutation_sym.
  - rewrite Hcr. f_equal. apply Permutation_length. now apply Permutation_sym.
  - rewrite Hfl. symmetry. now apply failures_of_permutation.
Qed.


(** X13.  The order in which the workers' outcomes arrive does not
    matter to the result: when the disk takes every write and the
    queue delivers the outcomes of the dispatched URLs in any order,
    the loop ends by its condition, leaves what follows in the queue,
    counts the successful and the failed scrapes, and holds the
    successful records, in arrival order. *)
Theorem arrival_order_does_not_change_counts :
  forall disk get book_urls arrival later,
    (forall k, disk k = true) ->
    Permutation (map (scrape_book get) book_urls) arrival ->
    exists st,
      aggregate disk (Z.of_nat (List.length book_urls))
                (map Outcome arrival ++ later) initial
      = (Completed, st, later) /\
      all_books st = successes (map Outcome arrival) /\
      Permutation (all_books st)
                  (successes (map Outcome (map (scrape_book get) book_urls))) /\
      crawled_count st
      = Z.of_nat (List.length
                    (successes (map Outcome (map (scrape_book get) book_urls)))) /\
      failed_count st
      = failures (map Outcome (map (scrape_book get) book_urls)).
Proof.
  intros disk get book_urls arrival later Hdisk Hperm.
  destruct (aggregate_on_arrival disk get book_urls arrival later Hdisk Hperm)
    as (st & Hrun & Hbooks & Hsame & Hcrawled & Hfailed).
  exists st. repeat split; assumption.
Qed.

Lemma arrival_order_witness :
  let first := "https://books.toscrape.com/catalogue/a_1/index.html" in
  let second := "https://books.toscrape.com/catalogue/b_2/index.html" in
  exists st,
    aggregate (fun _ => true) 2
              [Outcome None; Outcome (scrape_book one_book_site first); PullTimeout]
              initial
    = (Completed, st, [PullTimeout]) /\
    failed_count st = 1.
Proof.
  intros first second.
  destruct (arrival_order_does_not_change_counts
              (fun _ => true) one_book_site [first; second]
              [None; scrape_book one_book_site first]
              [PullTimeout] (fun _ => eq_refl)
              (perm_swap None (scrape_book one_book_site first) []))
    as (st & Hrun & _ & _ & _ & Hfailed).
  exists st. split; [exact Hrun | exact Hfailed].
Defined.

End LoopMore.

(** ** Decimal numerals: [str] and [int] *)

Module NumeralFacts.

Import PyText Listing Reading Observing TextFacts.

Lemma append_assoc (a b c : string) :
  ((a ++ b) ++ c)%string = (a ++ (b ++ c))%string.
Proof. induction a as [|x a IH]; simpl; congruence. Qed.

Lemma append_empty_r (a : string) : (a ++ "")%string = a.
Proof. induction a as [|x a IH]; simpl; congruence. Qed.

Lemma rstrip_no_space s :
  all_chars (fun c => negb (isspace c)) s = true -> rstrip s = s.
Proof.
  induction s as [|c s IH]; [reflexivity|].
  cbn [all_chars rstrip]. intros H. apply andb_prop in H. destruct H as [Hc Hs].
  rewrite (IH Hs). apply negb_true_iff in Hc. rewrite Hc.
  now destruct s.
Qed.

Lemma strip_no_space s :
  all_chars (fun c => negb (isspace c)) s = true -> strip s = s.
Proof.
  intros H. unfold strip.
  assert (Hl : lstrip s = s).
  { destruct s as [|c s]; [reflexivity|].
    cbn [all_chars] in H. apply andb_prop in H. destruct H as [Hc _].
    apply negb_true_iff in Hc. cbn [lstrip]. now rewrite Hc. }
  rewrite Hl. now apply rstrip_no_space.
Qed.

Lemma digit_not_space c : is_ascii_digit c = true -> isspace c = false.
Proof.
  unfold is_ascii_digit, isspace, in_range.
  destruct (Z.leb_spec 48 (code c)); [|discriminate].
  destruct (Z.leb_spec (code c) 57); [|discriminate].
  intros _.
  destruct (Z.leb_spec 9 (code c)); destruct (Z.leb_spec (code c) 13);
    destruct (Z.leb_spec 28 (code c)); destruct (Z.leb_spec (code c) 32);
    destruct (Z.eqb_spec (code c) 133); destruct (Z.eqb_spec (code c) 160);
    cbn; try reflexivity; lia.
Qed.

Lemma digits_no_space s :
  all_chars is_ascii_digit s = true ->
  all_chars (fun c => negb (isspace c)) s = true.
Proof.
  induction s as [|c s IH]; [reflexivity|].
  cbn [all_chars]. intros H. apply andb_prop in H. destruct H as [Hc Hs].
  rewrite (digit_not_space c Hc), (IH Hs). reflexivity.
Qed.

Lemma uint_chars_are_digits d :
  all_chars is_ascii_digit (NilEmpty.string_of_uint d) = true.
Proof. induction d; cbn; auto. Qed.

Lemma int_digits_step c d s prev acc :
  digit_value c = Some d ->
  int_digits (String c s) prev acc = int_digits s true (10 * acc + d).
Proof. intros H. cbn [int_digits]. now rewrite H. Qed.

Ltac digit_step :=
  erewrite int_digits_step by reflexivity;
  match goal with
  | |- context [10 * _ + ?d] =>
      let v := eval vm_compute in d in change d with v
  end.

(** Reading back the digits of [d] after a positive accumulator. *)
Lemma int_digits_uint_acc : forall d acc,
  int_digits (NilEmpty.string_of_uint d) true (Z.pos acc)
  = Some (Z.pos (Pos.of_uint_acc d acc)).
Proof.
  induction d; intros acc; cbn [NilEmpty.string_of_uint Pos.of_uint_acc];
    [reflexivity | ..];
    digit_step; rewrite <- IHd; f_equal; lia.
Qed.

Lemma int_digits_uint : forall d,
  int_digits (NilEmpty.string_of_uint d) true 0
  = Some (Z.of_N (Pos.of_uint d)).
Proof.
  induction d; cbn [NilEmpty.string_of_uint Pos.of_uint];
    [reflexivity | ..];
    digit_step;
    [exact IHd | ..];
    cbn [Z.of_N]; rewrite <- int_digits_uint_acc; reflexivity.
Qed.

Lemma int_digits_first_digit d prev acc :
  d <> Decimal.Nil ->
  int_digits (NilEmpty.string_of_uint d) prev acc
  = int_digits (NilEmpty.string_of_uint d) true acc.
Proof.
  destruct d; [contradiction | ..]; intros _; reflexivity.
Qed.

Lemma pos_uint_not_nil p : Pos.to_uint p <> Decimal.Nil.
Proof.
  intros H. pose proof (DecimalPos.Unsigned.of_to p) as Hof.
  rewrite H in Hof. discriminate.
Qed.

Lemma int_digits_pos p prev :
  int_digits (NilEmpty.string_of_uint (Pos.to_uint p)) prev 0 = Some (Z.pos p).
Proof.
  rewrite int_digits_first_digit by apply pos_uint_not_nil.
  rewrite int_digits_uint, DecimalPos.Unsigned.of_to. reflexivity.
Qed.

Lemma uint_head_is_digit d c rest :
  NilEmpty.string_of_uint d = String c rest -> is_ascii_digit c = true.
Proof. destruct d; cbn; [discriminate | ..]; intros [= <- _]; reflexivity. Qed.

(** [int] reads back what [str] writes. *)
Lemma int_of_str n : int (str_of_int n) = Ok n.
Proof.
  unfold int, str_of_int.
  destruct n as [|p|p]; cbn [Z.to_int NilEmpty.string_of_int].
  - reflexivity.
  - rewrite strip_no_space by apply digits_no_space, uint_chars_are_digits.
    destruct (NilEmpty.string_of_uint (Pos.to_uint p)) as [|c rest] eqn:Hs.
    + pose proof (int_digits_pos p false) as H. rewrite Hs in H. discriminate.
    + pose proof (uint_head_is_digit _ _ _ Hs) as Hc.
      pose proof (int_digits_pos p false) as H. rewrite Hs in H.
      destruct c as [[] [] [] [] [] [] [] []]; try discriminate Hc;
        rewrite H; reflexivity.
  - assert (Hstrip : strip (String "-" (NilEmpty.string_of_uint (Pos.to_uint p)))
                     = String "-" (NilEmpty.string_of_uint (Pos.to_uint p))).
    { apply strip_no_space. cbn [all_chars].
      rewrite (digits_no_space _ (uint_chars_are_digits _)). reflexivity. }
    rewrite Hstrip, int_digits_pos. reflexivity.
Qed.

Lemma str_of_int_injective a b : str_of_int a = str_of_int b -> a = b.
Proof.
  intros H. pose proof (int_of_str a) as Ha. rewrite H, int_of_str in Ha.
  congruence.
Qed.

Lemma str_of_int_no_space n :
  all_chars (fun c => negb (isspace c)) (str_of_int n) = true.
Proof.
  unfold str_of_int.
  destruct n as [|p|p]; cbn [Z.to_int NilEmpty.string_of_int];
    [reflexivity | | cbn [all_chars]];
    rewrite (digits_no_space _ (uint_chars_are_digits _)); reflexivity.
Qed.

Lemma str_of_int_not_empty n : truthy (str_of_int n) = true.
Proof.
  destruct (str_of_int n) eqn:Hs; [|reflexivity].
  pose proof (int_of_str n) as H. rewrite Hs in H. discriminate.
Qed.

End NumeralFacts.

(** ** Listing URLs *)

Module PageUrlFacts.

Import PyText Listing Reading Observing ListingFacts NumeralFacts.

Lemma length_append (a b : string) :
  String.length (a ++ b) = (String.length a + String.length b)%nat.
Proof. induction a as [|c a IH]; simpl; congruence. Qed.

Lemma append_inv_head (a x y : string) :
  (a ++ x)%string = (a ++ y)%string -> x = y.
Proof. induction a as [|c a IH]; simpl; [trivial|]. intros [= H]. auto. Qed.

Lemma append_inv_tail (s : string) : forall x y,
  (x ++ s)%string = (y ++ s)%string -> x = y.
Proof.
  induction x as [|c x IH]; intros [|d y] H; simpl in H.
  - reflexivity.
  - apply (f_equal String.length) in H. simpl in H.
    rewrite length_append in H. lia.
  - apply (f_equal String.length) in H. simpl in H.
    rewrite length_append in H. lia.
  - injection H as -> H. f_equal. now apply IH.
Qed.

(** X14.  Different listing pages have different URLs: the page number
    can be read back from the URL [get_book_urls] builds, so no two
    pages of a collection are requested under the same address. *)
Theorem listing_page_urls_are_distinct :
  forall base_url page other,
    page_url_of base_url page = page_url_of base_url other -> page = other.
Proof.
  intros base_url page other. unfold page_url_of.
  destruct (Z.eqb_spec page 1) as [->|Hp], (Z.eqb_spec other 1) as [->|Ho].
  - reflexivity.
  - intros H. symmetry in H. apply append_same_left in H. discriminate.
  - intros H. apply append_same_left in H. discriminate.
  - intros H. apply append_inv_head in H.
    apply (append_inv_head "catalogue/page-") in H.
    apply append_inv_tail in H. now apply str_of_int_injective.
Qed.

Lemma listing_page_urls_witness : 12 = 12.
Proof.
  apply (listing_page_urls_are_distinct "https://books.toscrape.com/" 12 12).
  reflexivity.
Defined.

End PageUrlFacts.

(** ** Page discovery and [main] *)

Module DiscoveryFacts.

Import PyText Extract Listing Orchestrator Tally Reading Observing Discovery.
Import TextFacts NumeralFacts OrchestratorFacts LoopMore.

Lemma last_item_app_one words w : last_item (words ++ [w]) = Some w.
Proof.
  induction words as [|x words IH]; [reflexivity|].
  cbn [app last_item]. now rewrite IH.
Qed.

Lemma truthy_append_char word c : truthy (word ++ String c "") = true.
Proof. now destruct word. Qed.

(** A word without whitespace, read to the end of the text. *)
Lemma split_from_word : forall w word,
  all_chars (fun c => negb (isspace c)) w = true ->
  truthy (word ++ w) = true ->
  split_from w word = [(word ++ w)%string].
Proof.
  induction w as [|c w IH]; intros word Hw Hword; cbn [split_from].
  - rewrite append_empty_r in *. now rewrite Hword.
  - cbn [all_chars] in Hw. apply andb_prop in Hw. destruct Hw as [Hc Hw].
    apply negb_true_iff in Hc. rewrite Hc.
    rewrite IH; auto.
    + now rewrite append_assoc.
    + rewrite append_assoc. exact Hword.
Qed.

(** A separator ends the word being read, whatever came before. *)
Lemma split_from_separator sp tail :
  isspace sp = true ->
  forall lead word, exists words,
    split_from (lead ++ String sp tail) word = words ++ split_from tail "".
Proof.
  intros Hsp. induction lead as [|c lead IH]; intros word.
  - cbn [append split_from]. rewrite Hsp.
    destruct (truthy word); [now exists [word] | now exists []].
  - cbn [append split_from].
    destruct (isspace c).
    + destruct (IH "") as [words Hwords]. rewrite Hwords.
      destruct (truthy word); [now exists (word :: words) | now exists words].
    + apply IH.
Qed.

Lemma last_word_after_separator lead sp w :
  isspace sp = true ->
  all_chars (fun c => negb (isspace c)) w = true ->
  truthy w = true ->
  last_item (split (lead ++ String sp w)) = Some w.
Proof.
  intros Hsp Hw Hne. unfold split.
  destruct (split_from_separator sp w Hsp lead "") as [words ->].
  rewrite split_from_word by assumption.
  apply last_item_app_one.
Qed.

Lemma last_item_none_iff : forall s word,
  last_item (split_from s word) = None <->
  truthy word = false /\ all_chars isspace s = true.
Proof.
  induction s as [|c s IH]; intros word; cbn [split_from all_chars].
  - destruct (truthy word); cbn; intuition congruence.
  - destruct (isspace c) eqn:Hc; cbn [andb].
    + destruct (truthy word).
      * cbn [last_item]. destruct (last_item _); intuition congruence.
      * rewrite IH. cbn. intuition congruence.
    + rewrite IH, truthy_append_char. intuition congruence.
Qed.

(** X15.  The number of listing pages is the last word of the pager's
    current-page text: whatever stands before it, a text ending in a
    separator and the decimal writing of [n] gives [n] pages, and so
    does that writing alone; "Page 1 of 50" gives 50. *)
Theorem total_pages_is_last_word_of_pager :
  forall get base lead sp n,
    isspace sp = true ->
    (get base = Ok (front_with (lead ++ String sp (str_of_int n))) ->
     discover_total_pages get base = Pages n) /\
    (get base = Ok (front_with (str_of_int n)) ->
     discover_total_pages get base = Pages n) /\
    (get base = Ok (front_with "Page 1 of 50") ->
     discover_total_pages get base = Pages 50).
Proof.
  intros get base lead sp n Hsp. unfold discover_total_pages.
  split; [|split]; intros ->; cbn [front_with find_pager find_current].
  - rewrite last_word_after_separator;
      auto using str_of_int_no_space, str_of_int_not_empty.
    now rewrite int_of_str.
  - unfold split. rewrite split_from_word;
      [| apply str_of_int_no_space | apply str_of_int_not_empty].
    cbn [last_item append]. now rewrite int_of_str.
  - reflexivity.
Qed.

Lemma total_pages_witness :
  discover_total_pages (fun _ => Ok (front_with ("of " ++ str_of_int 1000)))
                       base_url
  = Pages 1000.
Proof.
  apply (proj1 (total_pages_is_last_word_of_pager
                  (fun _ => Ok (front_with ("of " ++ str_of_int 1000)))
                  base_url "of" " " 1000 eq_refl)).
  reflexivity.
Defined.

(** X16.  Discovery falls back to one page when the front page has no
    pager or the pager no current item; it fails with [IndexError]
    exactly when there is a current item and its text is blank; and any
    failure of discovery ends [main] before a listing page is
    requested or a file written. *)
Theorem discovery_defaults_and_blank_pager :
  forall get base,
    (forall soup, get base = Ok soup -> find_pager soup = None ->
                  discover_total_pages get base = Pages 1) /\
    (forall soup pg, get base = Ok soup -> find_pager soup = Some pg ->
                     find_current pg = None ->
                     discover_total_pages get base = Pages 1) /\
    (discover_total_pages get base = DiscoveryFailed IndexError <->
     exists text, get base = Ok (front_with text) /\
                  all_chars isspace text = true) /\
    (forall why listing urljoin disk pulls,
        discover_total_pages get base_url = DiscoveryFailed why ->
        main get listing urljoin disk pulls = None).
Proof.
  intros get base. split; [|split; [|split]].
  - intros soup Hget Hpager. unfold discover_total_pages.
    now rewrite Hget, Hpager.
  - intros soup pg Hget Hpager Hcurrent. unfold discover_total_pages.
    now rewrite Hget, Hpager, Hcurrent.
  - unfold discover_total_pages. split.
    + destruct (get base) as [[[[[text|]]|]]|e];
        cbn [find_pager find_current]; try discriminate.
      destruct (last_item (split text)) as [word|] eqn:Hlast.
      * destruct (int word); discriminate.
      * intros _. exists text. split; [reflexivity|].
        apply last_item_none_iff in Hlast. tauto.
    + intros (text & -> & Hblank). cbn [front_with find_pager find_current].
      assert (Hlast : last_item (split text) = None)
        by (apply last_item_none_iff; auto).
      now rewrite Hlast.
  - intros why listing urljoin disk pulls Hfail. unfold main.
    now rewrite Hfail.
Qed.

Lemma discovery_blank_witness :
  discover_total_pages (fun _ => Ok (front_with "   ")) base_url
  = DiscoveryFailed IndexError.
Proof.
  apply (proj2 (proj1 (proj2 (proj2 (discovery_defaults_and_blank_pager _ _))))).
  exists "   ". split; reflexivity.
Defined.

(** X17.  End to end: when the pager's last word is [n], the disk takes
    every write and the result queue delivers, in any order, the
    outcomes of scraping the URLs collected from pages 1 to [n], then
    [main] dispatches exactly those URLs, the loop ends by its
    condition, the final save goes through, and the saved list holds
    the successful records, one for each URL whose scrape succeeded. *)
Theorem main_saves_every_successful_scrape :
  forall front listing urljoin disk get lead n arrival later,
    front base_url = Ok (front_with (lead ++ String " " (str_of_int n))) ->
    (forall k, disk k = true) ->
    Permutation
      (map (scrape_book get) (get_book_urls listing urljoin base_url n))
      arrival ->
    exists st earlier,
      main front listing urljoin disk (map Outcome arrival ++ later)
      = Some (get_book_urls listing urljoin base_url n, (Completed, Ok tt, st)) /\
      saves st = earlier ++ [{| saved := all_books st;
                                successes_then := crawled_count st;
                                written := true |}] /\
      Permutation (all_books st)
        (successes (map Outcome
           (map (scrape_book get) (get_book_urls listing urljoin base_url n)))) /\
      crawled_count st + failed_count st
      = Z.of_nat (List.length (get_book_urls listing urljoin base_url n)).
Proof.
  intros front listing urljoin disk get lead n arrival later Hfront Hdisk Hperm.
  unfold main.
  assert (Hpages : discover_total_pages front base_url = Pages n).
  { unfold discover_total_pages. rewrite Hfront.
    cbn [front_with find_pager find_current].
    rewrite last_word_after_separator;
      auto using str_of_int_no_space, str_of_int_not_empty.
    now rewrite int_of_str. }
  rewrite Hpages.
  set (book_urls := get_book_urls listing urljoin base_url n) in *.
  pose proof (Permutation_length Hperm) as Hlen. rewrite length_map in Hlen.
  destruct (aggregate_completes disk (Z.of_nat (List.length book_urls)) Hdisk
              (map Outcome arrival) initial (outcomes_are_outcomes arrival))
    with (later := later) as [st Hrun].
  { cbn. rewrite length_map. lia. }
  pose proof Hrun as Hacc.
  apply aggregate_completed_from in Hacc; [|cbn; lia].
  destruct Hacc as (consumed & Happ & _ & Hcount & Hbooks & Hcr & Hfl).
  apply app_inv_tail in Happ. subst consumed.
  cbn in Hbooks, Hcr, Hfl, Hcount.
  unfold main_crawl. rewrite Hrun. unfold save_books. rewrite Hdisk.
  eexists. exists (saves st). split; [reflexivity|].
  cbn [all_books crawled_count failed_count saves].
  split; [reflexivity|]. split.
  - rewrite Hbooks. apply Permutation_sym. now apply successes_of_permutation.
  - rewrite Hcr, Hfl. rewrite length_map in Hcount.
    clear - Hcount Hlen.
    assert (Hsum : forall l : list (option Book),
               Z.of_nat (List.length (successes (map Outcome l)))
               + failures (map Outcome l) = Z.of_nat (List.length l)).
    { induction l as [|[book|] l IH]; cbn [map successes failures List.length]; lia. }
    rewrite Hsum. lia.
Qed.

Lemma main_saves_witness :
  exists st,
    main (fun _ => Ok (front_with ("Page 1 of " ++ str_of_int 2)))
         broken_site urljoin_relative (fun _ => true)
         [Outcome (scrape_book one_book_site
                     "https://books.toscrape.com/catalogue/a_1/index.html");
          PullTimeout]
    = Some (["https://books.toscrape.com/catalogue/a_1/index.html"],
            (Completed, Ok tt, st)) /\
    crawled_count st + failed_count st = 1.
Proof.
  destruct (main_saves_every_successful_scrape
              (fun _ => Ok (front_with ("Page 1 of " ++ str_of_int 2)))
              broken_site urljoin_relative (fun _ => true)
              one_book_site "Page 1 of" 2
              [scrape_book one_book_site
                 "https://books.toscrape.com/catalogue/a_1/index.html"]
              [PullTimeout]
              eq_refl (fun _ => eq_refl) (Permutation_refl _))
    as (st & earlier & Hmain & _ & _ & Hcount).
  exists st. split; [exact Hmain | exact Hcount].
Defined.

End DiscoveryFacts.

(** ** The worker pool *)

Module PoolFacts.

Import Extract Worker Orchestrator Tally Observing Pool.
Import OrchestratorFacts LoopMore.

Lemma sum_cons (a : nat) (l : list nat) :
  list_sum (a :: l) = (a + list_sum l)%nat.
Proof. reflexivity. Qed.

Lemma set_phase_length : forall workers w p,
  List.length (set_phase workers w p) = List.length workers.
Proof.
  induction workers as [|q workers IH]; intros [|w] p; simpl; auto.
Qed.

Lemma set_phase_running : forall workers w old new,
  nth_error workers w = Some old ->
  (count_running (set_phase workers w new) + (if running old then 1 else 0)
   = count_running workers + (if running new then 1 else 0))%nat.
Proof.
  unfold count_running.
  induction workers as [|q workers IH]; intros [|w] old new; simpl;
    try discriminate.
  - intros [= ->]. destruct (running old), (running new); simpl; lia.
  - intros H. specialize (IH w old new H).
    destruct (running q); simpl; lia.
Qed.

Lemma set_phase_held : forall workers w old new,
  nth_error workers w = Some old ->
  Permutation (holding old ++ held (set_phase workers w new))
              (holding new ++ held workers).
Proof.
  unfold held.
  induction workers as [|q workers IH]; intros [|w] old new; simpl;
    try discriminate.
  - intros [= ->]. apply Permutation_app_swap_app.
  - intros H. specialize (IH w old new H).
    rewrite !(Permutation_app_swap_app _ (holding q)).
    now apply Permutation_app_head.
Qed.

Lemma set_phase_forall (P : phase -> Prop) : forall workers w p,
  Forall P workers -> P p -> Forall P (set_phase workers w p).
Proof.
  induction workers as [|q workers IH]; intros [|w] p Hall Hp; simpl; auto;
    inversion Hall; subst; constructor; auto.
Qed.

Lemma running_counts : forall workers w p,
  nth_error workers w = Some p -> running p = true ->
  (0 < count_running workers)%nat.
Proof.
  unfold count_running.
  induction workers as [|q workers IH]; intros [|w] p; simpl; try discriminate.
  - intros [= ->] ->. simpl. lia.
  - intros H Hp. specialize (IH w p H Hp). destruct (running q); simpl; lia.
Qed.

Lemma start_invariant get book_urls workers :
  protocol_invariant get book_urls workers (start book_urls workers).
Proof.
  exists book_urls, workers. cbn [start url_queue result_queue pool].
  assert (Hidle : forall n, count_running (repeat Idle n) = n
                            /\ held (repeat Idle n) = []
                            /\ Forall (fun p => p <> Gone Crashed) (repeat Idle n)).
  { induction n as [|n (IH1 & IH2 & IH3)]; [repeat split; constructor|].
    unfold count_running in *. cbn. repeat split; auto.
    constructor; [discriminate | assumption]. }
  destruct (Hidle workers) as (Hcount & Hheld & Hall).
  rewrite Hcount, Hheld, repeat_length. cbn [app].
  repeat split; auto.
Qed.

(** One step of any worker keeps the invariant and takes one unit off
    the work that is left. *)
Lemma act_invariant get book_urls workers w sys sys' :
  protocol_invariant get book_urls workers sys ->
  act get w sys = Some sys' ->
  protocol_invariant get book_urls workers sys' /\
  S (work_left sys') = work_left sys.
Proof.
  intros (waiting & requests & Hqueue & Hreq & Hshape & Hlen & Hsafe & Hperm).
  unfold act.
  destruct (nth_error (pool sys) w) as [[|result|how]|] eqn:Hw; try discriminate.
  - (* a pop *)
    pose proof (set_phase_length (pool sys) w) as Hl.
    rewrite Hqueue.
    destruct waiting as [|book_url waiting].
    + destruct requests as [|requests].
      * exfalso.
        pose proof (running_counts _ _ _ Hw eq_refl). lia.
      * cbn [map app repeat]. intros [= <-].
        pose proof (set_phase_running _ _ _ (Gone Stopped) Hw) as Hrun.
        pose proof (set_phase_held _ _ _ (Gone Stopped) Hw) as Hheld.
        cbn [running holding app] in Hrun, Hheld.
        split.
        -- exists [], requests. cbn [url_queue result_queue pool map app].
           rewrite Hl.
           repeat split; auto; try lia.
           ++ apply set_phase_forall; [assumption | discriminate].
           ++ eapply perm_trans; [exact Hperm|].
              cbn [map]. apply Permutation_app_head.
              apply Permutation_app_tail. now apply Permutation_sym.
        -- unfold work_left. cbn [url_queue pool].
           rewrite Hqueue. cbn [map app repeat weight]. rewrite ?sum_cons.
           rewrite (Permutation_length Hheld). lia.
    + cbn [map app]. intros [= <-].
      pose proof (set_phase_running _ _ _
                    (Reporting (scrape_book get book_url)) Hw) as Hrun.
      pose proof (set_phase_held _ _ _
                    (Reporting (scrape_book get book_url)) Hw) as Hheld.
      cbn [running holding app] in Hrun, Hheld.
      split.
      * exists waiting, requests. cbn [url_queue result_queue pool].
        rewrite Hl.
        repeat split; auto; try lia.
        -- right. destruct Hshape as [Hnil|Hall]; [discriminate | exact Hall].
        -- apply set_phase_forall; [assumption | discriminate].
        -- eapply perm_trans; [exact Hperm|].
           apply Permutation_app_head. cbn [map].
           eapply perm_trans; [apply Permutation_sym, Permutation_middle|].
           change (scrape_book get book_url :: held (pool sys)
                   ++ map (scrape_book get) waiting)
             with ((scrape_book get book_url :: held (pool sys))
                   ++ map (scrape_book get) waiting).
           apply Permutation_app_tail. now apply Permutation_sym.
      * unfold work_left. cbn [url_queue pool].
        rewrite Hqueue. cbn [map app weight]. rewrite ?sum_cons.
        rewrite (Permutation_length Hheld). cbn [List.length]. lia.
  - (* a put *)
    intros [= <-].
    pose proof (set_phase_length (pool sys) w Idle) as Hl.
    pose proof (set_phase_running _ _ _ Idle Hw) as Hrun.
    pose proof (set_phase_held _ _ _ Idle Hw) as Hheld.
    cbn [running holding app] in Hrun, Hheld.
    split.
    + exists waiting, requests. cbn [url_queue result_queue pool].
      rewrite Hl.
      repeat split; auto; try lia.
      * apply set_phase_forall; [assumption | discriminate].
      * eapply perm_trans; [exact Hperm|].
        rewrite <- app_assoc. apply Permutation_app_head.
        cbn [app].
        change (result :: held (set_phase (pool sys) w Idle)
                ++ map (scrape_book get) waiting)
          with ((result :: held (set_phase (pool sys) w Idle))
                ++ map (scrape_book get) waiting).
        apply Permutation_app_tail. now apply Permutation_sym.
    + unfold work_left. cbn [url_queue pool].
      pose proof (Permutation_length Hheld) as Hlenheld.
      cbn [List.length] in Hlenheld. lia.
Qed.

Lemma start_work_left book_urls workers :
  work_left (start book_urls workers)
  = (2 * List.length book_urls + workers)%nat.
Proof.
  unfold work_left. cbn [start url_queue pool].
  assert (Hheld : forall n, held (repeat Idle n) = [])
    by (induction n; cbn; auto).
  rewrite Hheld, map_app, list_sum_app. cbn [List.length].
  assert (Hurls : list_sum (map weight (map Some book_urls))
                  = (2 * List.length book_urls)%nat).
  { induction book_urls as [|u us IH]; [reflexivity|].
    cbn [map weight List.length]. rewrite sum_cons. lia. }
  assert (Hstops : forall n, list_sum (map weight (repeat (@None string) n)) = n).
  { induction n as [|n IH]; [reflexivity|].
    cbn [repeat map weight]. rewrite sum_cons. lia. }
  rewrite Hurls, Hstops. lia.
Qed.

Lemma run_invariant get book_urls workers : forall schedule sys sys',
  protocol_invariant get book_urls workers sys ->
  run get schedule sys = Some sys' ->
  protocol_invariant get book_urls workers sys' /\
  (work_left sys' + List.length schedule = work_left sys)%nat.
Proof.
  induction schedule as [|w schedule IH]; intros sys sys' Hinv; cbn [run].
  - intros [= <-]. split; [assumption | cbn; lia].
  - destruct (act get w sys) as [sys1|] eqn:Hact; [|discriminate].
    destruct (act_invariant _ _ _ _ _ _ Hinv Hact) as [Hinv1 Hwork].
    intros Hrun. destruct (IH _ _ Hinv1 Hrun) as [Hinv' Hwork'].
    split; [assumption | cbn [List.length]; lia].
Qed.

Lemma queued_shape waiting requests :
  queued (map Some waiting ++ repeat None requests) = waiting /\
  stops_waiting (map Some waiting ++ repeat None requests) = requests.
Proof.
  induction waiting as [|u waiting [IH1 IH2]]; cbn [map app queued stops_waiting].
  - induction requests as [|n [IH1 IH2]]; cbn [repeat queued stops_waiting];
      split; congruence.
  - split; congruence.
Qed.

Lemma nobody_running workers :
  count_running workers = O ->
  held workers = [] /\ Forall (fun p => exists how, p = Gone how) workers.
Proof.
  unfold count_running, held.
  induction workers as [|p workers IH]; [split; constructor|].
  destruct p as [|result|how]; cbn; try discriminate.
  intros H. destruct (IH H) as [Hheld Hall].
  split; [exact Hheld|]. constructor; eauto.
Qed.

Lemma finished_iff workers :
  forallb (fun p => negb (running p)) workers = true <-> count_running workers = O.
Proof.
  unfold count_running.
  induction workers as [|p workers IH]; [split; reflexivity|].
  cbn. destruct (running p); cbn; [split; discriminate | exact IH].
Qed.

Lemma somebody_running workers :
  forallb (fun p => negb (running p)) workers = false ->
  exists w p, nth_error workers w = Some p /\ running p = true.
Proof.
  induction workers as [|q workers IH]; [discriminate|].
  cbn. destruct (running q) eqn:Hq; cbn.
  - intros _. now exists O, q.
  - intros H. destruct (IH H) as (w & p & Hw & Hp). now exists (S w), p.
Qed.

(** X18.  The stop-request protocol is safe under every interleaving of
    the workers: no worker ever leaves through a timeout; every worker
    still in its loop has its stop request waiting in the queue, behind
    all the URLs; and no outcome is lost or duplicated: the scrapes of
    the dispatched URLs are, up to order, the outcomes already put,
    those held by a worker, and those of the URLs still queued. *)
Theorem stop_requests_reach_every_worker :
  forall get book_urls workers schedule sys,
    run get schedule (start book_urls workers) = Some sys ->
    Forall (fun p => p <> Gone Crashed) (pool sys) /\
    stops_waiting (url_queue sys) = count_running (pool sys) /\
    url_queue sys
    = map Some (queued (url_queue sys))
      ++ repeat None (stops_waiting (url_queue sys)) /\
    Permutation (map (scrape_book get) book_urls)
                (result_queue sys ++ held (pool sys)
                 ++ map (scrape_book get) (queued (url_queue sys))).
Proof.
  intros get book_urls workers schedule sys Hrun.
  apply (run_invariant get book_urls workers) in Hrun;
    [|apply start_invariant].
  destruct Hrun as [(waiting & requests & Hqueue & Hreq & _ & _ & Hsafe & Hperm) _].
  destruct (queued_shape waiting requests) as [Hq Hs].
  rewrite <- Hqueue in Hq, Hs. rewrite Hq, Hs.
  repeat split; auto.
Qed.

Lemma stop_requests_witness :
  let first := "https://books.toscrape.com/catalogue/a_1/index.html" in
  let second := "https://books.toscrape.com/catalogue/b_2/index.html" in
  exists sys,
    run one_book_site [1; 0; 1; 0; 0]%nat (start [first; second] 2) = Some sys /\
    Forall (fun p => p <> Gone Crashed) (pool sys).
Proof.
  intros first second.
  destruct (run one_book_site [1; 0; 1; 0; 0]%nat (start [first; second] 2))
    as [sys|] eqn:Hrun; [|discriminate].
  exists sys. split; [reflexivity|].
  exact (proj1 (stop_requests_reach_every_worker _ _ _ _ _ Hrun)).
Defined.

(** X19.  The pool always comes to an end, and cleanly: an interleaving
    of a pool of at least one worker on [n] URLs has at most
    [2 * n + workers] steps; as long as it has fewer some worker can
    step; and when it has that many every worker has left on its stop
    request, the URL queue is empty, and the result queue holds
    exactly one outcome for each dispatched URL. *)
Theorem pool_runs_to_completion :
  forall get book_urls workers schedule sys,
    (0 < workers)%nat ->
    run get schedule (start book_urls workers) = Some sys ->
    (work_left sys + List.length schedule
     = 2 * List.length book_urls + workers)%nat /\
    (finished sys = true <->
     List.length schedule = (2 * List.length book_urls + workers)%nat) /\
    (finished sys = false -> exists w sys', act get w sys = Some sys') /\
    (finished sys = true ->
     url_queue sys = [] /\
     pool sys = repeat (Gone Stopped) workers /\
     Permutation (map (scrape_book get) book_urls) (result_queue sys)).
Proof.
  intros get book_urls workers schedule sys Hpos Hrun.
  apply (run_invariant get book_urls workers) in Hrun;
    [|apply start_invariant].
  rewrite start_work_left in Hrun.
  destruct Hrun as [(waiting & requests & Hqueue & Hreq & Hshape & Hlen
                     & Hsafe & Hperm) Hwork].
  assert (Hdone : finished sys = true ->
                  waiting = [] /\ requests = O /\ held (pool sys) = []
                  /\ Forall (fun p => exists how, p = Gone how) (pool sys)).
  { unfold finished. rewrite finished_iff. intros Hnone.
    destruct (nobody_running _ Hnone) as [Hheld Hall].
    assert (requests = O) by lia.
    repeat split; auto. destruct Hshape as [Hnil|Hall']; [exact Hnil | lia]. }
  split; [exact Hwork|]. split; [|split].
  - split.
    + intros Hfin. destruct (Hdone Hfin) as (-> & -> & Hheld & _).
      unfold work_left in Hwork. rewrite Hqueue, Hheld in Hwork.
      cbn in Hwork. lia.
    + intros Hsteps. assert (Hzero : work_left sys = O) by lia.
      unfold work_left in Hzero. rewrite Hqueue in Hzero.
      unfold finished. rewrite finished_iff, <- Hreq.
      destruct waiting as [|u waiting]; [|cbn in Hzero; lia].
      destruct requests as [|requests]; [reflexivity | cbn in Hzero; lia].
  - unfold finished. intros Hnot.
    destruct (somebody_running _ Hnot) as (w & p & Hw & Hp).
    exists w. unfold act. rewrite Hw.
    destruct p as [|result|how]; [| eauto | discriminate].
    destruct (url_queue sys) as [|[u|] rest]; eauto.
  - intros Hfin. destruct (Hdone Hfin) as (-> & -> & Hheld & Hall).
    cbn in Hqueue. rewrite Hheld in Hperm. cbn in Hperm.
    rewrite app_nil_r in Hperm.
    split; [exact Hqueue|]. split; [|exact Hperm].
    rewrite <- Hlen. clear - Hsafe Hall.
    induction (pool sys) as [|p workers IH]; [reflexivity|].
    inversion Hsafe as [|? ? Hp Hsafe']; inversion Hall as [|? ? [how ->] Hall'];
      subst.
    cbn [List.length repeat]. rewrite <- IH by assumption.
    destruct how; [reflexivity | contradiction].
Qed.

Lemma pool_completion_witness :
  let first := "https://books.toscrape.com/catalogue/a_1/index.html" in
  let second := "https://books.toscrape.com/catalogue/b_2/index.html" in
  exists sys,
    run one_book_site [1; 0; 1; 0; 0; 1]%nat (start [first; second] 2) = Some sys /\
    finished sys = true /\
    url_queue sys = [].
Proof.
  intros first second.
  destruct (run one_book_site [1; 0; 1; 0; 0; 1]%nat (start [first; second] 2))
    as [sys|] eqn:Hrun; [|discriminate].
  exists sys.
  destruct (pool_runs_to_completion one_book_site [first; second] 2
              [1; 0; 1; 0; 0; 1]%nat sys (le_S _ _ (le_n 1)) Hrun)
    as (_ & Hiff & _ & Hend).
  assert (Hfin : finished sys = true) by (apply Hiff; reflexivity).
  split; [reflexivity|]. split; [exact Hfin|].
  exact (proj1 (Hend Hfin)).
Defined.

(** A lone worker stepping in the pool, with the queue as its pops. *)
Lemma lone_worker_steps get : forall queue results,
  exists steps queue',
    run get (repeat O steps)
        {| url_queue := queue; result_queue := results; pool := [Idle] |}
    = Some {| url_queue := queue';
              result_queue := snd (fst (worker_process get (pops_of queue) results));
              pool := [Gone (fst (fst (worker_process get (pops_of queue) results)))] |}
    /\ pops_of queue' = snd (worker_process get (pops_of queue) results).
Proof.
  induction queue as [|[book_url|] queue IH]; intros results.
  - exists 1%nat, []. split; reflexivity.
  - destruct (IH (results ++ [scrape_book get book_url]))
      as (steps & queue' & Hrun & Hpops).
    exists (S (S steps)), queue'.
    cbn [pops_of map]. rewrite WorkerFacts.worker_process_item.
    split; [|exact Hpops].
    cbn [repeat run act pool nth_error url_queue result_queue set_phase].
    exact Hrun.
  - exists 1%nat, queue. split; reflexivity.
Qed.

(** X20.  A pool of one worker does what [worker_process] does on the
    same queue: stepped until it has left, the worker has put the same
    outcomes, left the same way and left the same entries in the
    queue. *)
Theorem lone_worker_is_worker_process :
  forall get queue results,
    exists steps sys,
      run get (repeat O steps)
          {| url_queue := queue; result_queue := results; pool := [Idle] |}
      = Some sys /\
      worker_process get (pops_of queue) results
      = (match pool sys with
         | [Gone how] => how
         | _ => Crashed
         end, result_queue sys, pops_of (url_queue sys)) /\
      finished sys = true.
Proof.
  intros get queue results.
  destruct (lone_worker_steps get queue results) as (steps & queue' & Hrun & Hpops).
  exists steps. eexists. split; [exact Hrun|].
  cbn [pool result_queue url_queue finished forallb running negb andb].
  rewrite Hpops.
  destruct (worker_process get (pops_of queue) results) as [[how res] pops].
  split; reflexivity.
Qed.




End PoolFacts.
